(** * The eventshub sender: send loop of
      knative.dev/reconciler-test/pkg/test_images/eventshub/sender/sender.go

    The Go code is embedded shallowly.  Values of Go's [int] (64 bits on the
    targets the image is built for) are integers of [Z] with the wrap-around
    of the machine written out.  Objects reached through pointers
    ([*cloudevents.Event]) live in an explicit heap, so that sharing between
    the template event, its per-iteration clones and the records handed to
    the event log is visible.  Everything the process observes from outside
    (HTTP exchanges, the event log accepting a record, the clock, the ticker
    and the cancellation of the context) is read from a script. *)

From Stdlib Require Import ZArith Lia.
From stdpp Require Import base decidable option list strings gmap pretty.

(** ** Machine integers *)

Module GoInt.
Local Open Scope Z_scope.

Definition min_int : Z := - 2 ^ 63.
Definition max_int : Z := 2 ^ 63 - 1.

(** The value of type [int] (or [int64]) left by an arithmetic operation
    whose mathematical result is [z]. *)
Definition wrap (z : Z) : Z := (z + 2 ^ 63) mod 2 ^ 64 - 2 ^ 63.

(** The conversion [uint64(z)] of an [int]. *)
Definition uint64 (z : Z) : Z := z mod 2 ^ 64.

Definition is_int (z : Z) : Prop := min_int <= z <= max_int.
End GoInt.

(** ** Data *)

(** Instants of [time.Time] and lengths of [time.Duration] (nanoseconds). *)
Definition Instant := Z.
Definition Duration := Z.
Definition Second : Duration := 1000000000%Z.

(** A Go [error] value; the program only ever looks at its message. *)
Record error := mkError { Error : string }.

Definition loc := nat.

Inductive ext_value :=
| ExtInt (n : Z)
| ExtString (s : string).

(** Modelled from the spec: the [cloudevents.Event] type and the methods
    [Clone], [ID], [SetID], [SetTime] and [SetExtension] of the CloudEvents
    SDK.  An event is "a structured message with an identifier, a timestamp,
    a type, a set of extension attributes (key to value) and a body"; the
    setters overwrite the attribute they name.  The SDK's validation of
    extension names and values is not part of this description. *)
Record Event := mkEvent {
  ev_ID : string;
  ev_Type : string;
  ev_Time : option Instant;
  ev_Extensions : gmap string ext_value;
  ev_Data : list Byte.byte
}.

Definition ID (e : Event) : string := ev_ID e.

Definition Clone (e : Event) : Event :=
  mkEvent (ev_ID e) (ev_Type e) (ev_Time e) (ev_Extensions e) (ev_Data e).

Definition SetID (id : string) (e : Event) : Event :=
  mkEvent id (ev_Type e) (ev_Time e) (ev_Extensions e) (ev_Data e).

Definition SetTime (t : Instant) (e : Event) : Event :=
  mkEvent (ev_ID e) (ev_Type e) (Some t) (ev_Extensions e) (ev_Data e).

Definition SetExtension (name : string) (v : ext_value) (e : Event) : Event :=
  mkEvent (ev_ID e) (ev_Type e) (ev_Time e) (<[name := v]> (ev_Extensions e))
          (ev_Data e).

(** The store of events that the program holds pointers to. *)
Definition heap := list Event.

(** [net/http]: headers, requests and responses. *)
Abbreviation Header := (gmap string (list string)).

Record Request := mkRequest {
  req_Method : string;
  req_URL : string;
  req_Header : Header;
  req_Body : option (list Byte.byte)
}.

(** [binding.Encoding], the answer of [ReadEncoding]. *)
Inductive Encoding :=
| EncodingBinary
| EncodingStructured
| EncodingEvent
| EncodingUnknown.

#[global] Instance Encoding_eq_dec : EqDecision Encoding.
Proof. solve_decision. Defined.

(** A response as [responseInfo] sees it: status and headers, what
    [cehttp.NewMessageFromHttpResponse(res).ReadEncoding()] answers, what
    [ioutil.ReadAll(res.Body)] returns and what [binding.ToEvent] returns. *)
Record Response := mkResponse {
  res_StatusCode : Z;
  res_Header : Header;
  res_ReadEncoding : Encoding;
  res_ReadAll : error + list Byte.byte;
  res_ToEvent : error + Event
}.

(** The encoding that [Start] puts in the context. *)
Inductive ctx_encoding := WithEncodingBinary | WithEncodingStructured.

(** Modelled from the spec: [eventshub.EventInfo], the outcome record, "a
    tagged record with kind, origin, observer, timestamp, sequence number,
    optional event payload, optional raw headers, optional raw body, optional
    status code, optional error string, optional correlating
    sent-identifier".  Fields a composite literal leaves out hold Go's zero
    value: [None] for a nil pointer, map or slice, the empty string, 0. *)
Inductive EventKind := EventSent | EventResponse.

#[global] Instance EventKind_eq_dec : EqDecision EventKind.
Proof. solve_decision. Defined.

Record EventInfo := mkEventInfo {
  Kind : EventKind;
  ei_Error : string;
  ei_Event : option loc;
  HTTPHeaders : option Header;
  Body : option (list Byte.byte);
  StatusCode : Z;
  Origin : string;
  Observer : string;
  ei_Time : Instant;
  Sequence : Z;
  SentId : string
}.

(** The fields of [generator] that [envconfig] fills in. *)
Record Config := mkConfig {
  SenderName : string;
  Sink : string;
  Delay : Z;
  ProbeSink : bool;
  ProbeSinkTimeout : Z;
  InputEvent : string;
  EventEncoding : string;
  InputHeaders : gmap string string;
  InputBody : string;
  InputMethod : string;
  AddTracing : bool;
  AddSequence : bool;
  IncrementalId : bool;
  OverrideTime : bool;
  Period : Z;
  MaxMessages : Z
}.

(** [generator]: the configuration and the processed state. *)
Record generator := mkGenerator {
  cfg : Config;
  baseEvent : option loc;
  sequence : Z
}.

Definition set_baseEvent (b : option loc) (g : generator) : generator :=
  mkGenerator (cfg g) b (sequence g).

Definition set_sequence (n : Z) (g : generator) : generator :=
  mkGenerator (cfg g) (baseEvent g) n.

(** What a call leaves behind: a value, an error, or a panic. *)
Inductive outcome (A : Type) :=
| Ok (a : A)
| Fail (e : error)
| Panic (msg : string).
Arguments Ok {A} a.
Arguments Fail {A} e.
Arguments Panic {A} msg.

(** ** Library calls

    The functions of [net/http], [encoding/json], the CloudEvents SDK and the
    Go runtime whose results the sender only passes on. *)
Class Externals := {
  (** the error, if any, that [nethttp.NewRequest(method, url, nil)] returns *)
  NewRequest_error : string → string → option error;
  (** [cehttp.WriteRequest(ctx, binding.ToMessage(event), req)] *)
  WriteRequest : ctx_encoding → Event → Request → error + Request;
  (** [json.Unmarshal] into a [**cloudevents.Event]; JSON null gives nil *)
  Unmarshal : string → error + option Event;
  (** [textproto.CanonicalMIMEHeaderKey], applied by [Header.Add] *)
  CanonicalMIMEHeaderKey : string → string;
  (** the order in which a [range] over the map visits its entries *)
  range_headers : gmap string string → list (string * string);
  range_headers_perm : ∀ m, range_headers m ≡ₚ map_to_list m
}.

Definition Itoa (n : Z) : string := pretty n.

Section Sender.
Context `{Externals}.

Definition NewRequest (method url : string) : error + Request :=
  let method := if decide (method = "") then "GET" else method in
  match NewRequest_error method url with
  | Some err => inl err
  | None => inr (mkRequest method url ∅ None)
  end.

Definition Header_Add (key value : string) (hd : Header) : Header :=
  let k := CanonicalMIMEHeaderKey key in
  <[k := default [] (hd !! k) ++ [value]]> hd.

Definition set_Header (hd : Header) (req : Request) : Request :=
  mkRequest (req_Method req) (req_URL req) hd (req_Body req).

Definition set_Body (b : option (list Byte.byte)) (req : Request) : Request :=
  mkRequest (req_Method req) (req_URL req) (req_Header req) b.

(** *** [generator.init] *)
Inductive init_error :=
| UnmarshalFailed (cause : error)
| InputValuesNotProvided.

Definition init (g : generator) (h : heap) : generator * heap * option init_error :=
  let parsed :=
    if decide (InputEvent (cfg g) ≠ "") then
      match Unmarshal (InputEvent (cfg g)) with
      | inl err => inl err
      | inr None => inr (g, h)
      | inr (Some ev) => inr (set_baseEvent (Some (length h)) g, h ++ [ev])
      end
    else inr (g, h) in
  match parsed with
  | inl err => (g, h, Some (UnmarshalFailed err))
  | inr (g, h) =>
    if decide (InputEvent (cfg g) = "" ∧ InputBody (cfg g) = ""
               ∧ size (InputHeaders (cfg g)) = 0)
    then (g, h, Some InputValuesNotProvided)
    else (g, h, None)
  end.

(** *** [generator.hasNext] *)
Definition hasNext (g : generator) : bool :=
  if decide (MaxMessages (cfg g) = 0%Z) then true
  else bool_decide (sequence g < MaxMessages (cfg g))%Z.

(** *** [generator.next] *)

(** Lines 321-329: the static headers, then the static body. *)
Definition add_input_headers (g : generator) (req : Request) : Request :=
  if decide (size (InputHeaders (cfg g)) ≠ 0) then
    set_Header
      (foldl (λ hd kv, Header_Add kv.1 kv.2 hd) (req_Header req)
             (range_headers (InputHeaders (cfg g))))
      req
  else req.

Definition set_input_body (g : generator) (req : Request) : Request :=
  if decide (InputBody (cfg g) ≠ "") then
    set_Body (Some (String.list_byte_of_string (InputBody (cfg g)))) req
  else req.

Definition next (ctx : ctx_encoding) (now : Instant) (g : generator) (h : heap)
  : generator * heap * outcome (Request * option loc) :=
  match NewRequest (InputMethod (cfg g)) (Sink (cfg g)) with
  | inl err => (g, h, Fail err)
  | inr req =>
    match baseEvent g with
    | None => (g, h, Ok (set_input_body g (add_input_headers g req), None))
    | Some b =>
      match h !! b with
      | None => (g, h, Panic "invalid memory address or nil pointer dereference")
      | Some base =>
        (* e := g.baseEvent.Clone(); event = &e *)
        let event := length h in
        let h := h ++ [Clone base] in
        (* g.sequence++ *)
        let g := set_sequence (GoInt.wrap (sequence g + 1)) g in
        let h := if AddSequence (cfg g)
                 then alter (SetExtension "sequence" (ExtInt (sequence g))) event h
                 else h in
        let h := if IncrementalId (cfg g)
                 then alter (SetID (Itoa (sequence g))) event h
                 else h in
        let h := if OverrideTime (cfg g)
                 then alter (SetTime now) event h
                 else h in
        match h !! event with
        | None => (g, h, Panic "invalid memory address or nil pointer dereference")
        | Some e =>
          match WriteRequest ctx e req with
          | inl err => (g, h, Fail err)
          | inr req =>
            (g, h, Ok (set_input_body g (add_input_headers g req), Some event))
          end
        end
      end
    end
  end.

(** *** [generator.sentInfo] *)

(** [event.ID()] behind the nil check; [None] when the pointer does not
    point into the heap (a dereference that panics). *)
Definition eventId (h : heap) (event : option loc) : option string :=
  match event with
  | None => Some ""
  | Some l => ID <$> h !! l
  end.

Definition sentInfo (g : generator) (h : heap) (now : Instant)
    (event : option loc) (req : Request) (err : option error)
  : option EventInfo :=
  eventId ← eventId h event;
  match err with
  | Some err =>
    Some {| Kind := EventSent;
            ei_Error := Error err;
            ei_Event := None;
            HTTPHeaders := None;
            Body := None;
            StatusCode := 0;
            Origin := SenderName (cfg g);
            Observer := SenderName (cfg g);
            ei_Time := now;
            Sequence := GoInt.uint64 (sequence g);
            SentId := eventId |}
  | None =>
    let sentHeaders :=
      map_fold (λ k v (acc : Header), <[k := v]> acc) ∅ (req_Header req) in
    Some {| Kind := EventSent;
            ei_Error := "";
            ei_Event := event;
            HTTPHeaders := Some sentHeaders;
            Body := if decide (InputBody (cfg g) ≠ "")
                    then Some (String.list_byte_of_string (InputBody (cfg g)))
                    else None;
            StatusCode := 0;
            Origin := SenderName (cfg g);
            Observer := SenderName (cfg g);
            ei_Time := now;
            Sequence := GoInt.uint64 (sequence g);
            SentId := eventId |}
  end.

(** *** [generator.responseInfo]

    The event that [binding.ToEvent] returns is a new object; the record
    holds a pointer to it. *)
Definition responseInfo (g : generator) (h : heap) (now : Instant)
    (res : Response) (event : option loc) : heap * option EventInfo :=
  match eventId h event with
  | None => (h, None)
  | Some eventId =>
    let responseInfo (error : string) (ev : option loc)
        (body : option (list Byte.byte)) :=
      {| Kind := EventResponse;
         ei_Error := error;
         ei_Event := ev;
         HTTPHeaders := Some (res_Header res);
         Body := body;
         StatusCode := res_StatusCode res;
         Origin := Sink (cfg g);
         Observer := SenderName (cfg g);
         ei_Time := now;
         Sequence := GoInt.uint64 (sequence g);
         SentId := eventId |} in
    if decide (res_ReadEncoding res = EncodingUnknown) then
      match res_ReadAll res with
      | inl err => (h, Some (responseInfo (Error err) None None))
      | inr body => (h, Some (responseInfo "" None (Some body)))
      end
    else
      match res_ToEvent res with
      | inl err => (h, Some (responseInfo (Error err) None None))
      | inr responseEvent =>
        (h ++ [responseEvent], Some (responseInfo "" (Some (length h)) None))
      end
  end.

(** ** The run *)

(** What the select at the end of an iteration receives first. *)
Inductive wake := Tick | Cancelled.

(** What one pass through the loop body reads from outside, in program
    order: the clock in [next], the result of [httpClient.Do], the clock in
    [sentInfo], the result of [logs.Vent] for the sent record, the clock in
    [responseInfo], the result of [logs.Vent] for the response record, and
    the channel that is ready in the select. *)
Record iteration := mkIteration {
  now_build : Instant;
  exchange : error + Response;
  now_sent : Instant;
  vent_sent : option error;
  now_response : Instant;
  vent_response : option error;
  woken : wake
}.

(** One call of [nethttp.DefaultClient.Do] on the probe request. *)
Inductive probe :=
| ProbeFailed (err : error)
| ProbeAnswered (status : Z).

(** The first probe is made at once; [probe_rest] are the probes made at
    later polls, as many as fit before the timeout. *)
Record World := mkWorld {
  probe_first : probe;
  probe_rest : list probe;
  iterations : list iteration
}.

Inductive failure :=
| ProcessFailed (cause : error)
| InitFailed (e : init_error)
| ProbingFailed (sink : string) (timeout : Duration) (cause : error)
| UnsupportedEncoding (enc : string)
| NextFailed (cause : error)
| CannotForward (cause : error).

(** How far [Start] got on a script: it returned (nil or an error), it
    panicked, or it is still running when the script ends. *)
Inductive status :=
| Returned (err : option failure)
| Panicked (msg : string)
| Running.

(** The generator, the heap and the records handed to [logs.Vent]. *)
Record state := mkState {
  gen : generator;
  store : heap;
  vented : list EventInfo
}.

(** *** Probing *)
Definition ErrWaitTimeout : error :=
  mkError "timed out waiting for the condition".

Inductive poll_result :=
| PollOk
| PollErr (err : error)
| PollPending.

(** Modelled from the spec: [wait.PollImmediate(interval, timeout, cond)]
    of k8s.io/apimachinery: "issue [the check] repeatedly at a short fixed
    poll interval until one succeeds or until a configured timeout
    elapses"; an error of the condition ends the polling with that error.
    The attempts are the ones that the timeout leaves room for; a timeout
    of zero stands for no timeout at all. *)
Fixpoint poll (timeout : Duration) (cond : probe → bool * option error)
    (attempts : list probe) : poll_result :=
  match attempts with
  | [] => if decide (timeout = 0%Z) then PollPending else PollErr ErrWaitTimeout
  | p :: attempts =>
    match cond p with
    | (_, Some err) => PollErr err
    | (true, None) => PollOk
    | (false, None) => poll timeout cond attempts
    end
  end.

Definition PollImmediate (timeout : Duration)
    (cond : probe → bool * option error) (first : probe) (rest : list probe)
  : poll_result :=
  poll timeout cond (first :: rest).

(** The condition of lines 121-131. *)
Definition probe_condition (env : generator) (p : probe) : bool * option error :=
  match NewRequest "HEAD" (Sink (cfg env)) with
  | inl err => (false, Some err)
  | inr req =>
    match p with
    | ProbeFailed _ => (false, None)
    | ProbeAnswered _ => (true, None)
    end
  end.

Definition seconds (n : Z) : Duration := GoInt.wrap (n * Second).

Definition probing (env : generator) (w : World) : poll_result :=
  if ProbeSink (cfg env) then
    PollImmediate (seconds (ProbeSinkTimeout (cfg env))) (probe_condition env)
                  (probe_first w) (probe_rest w)
  else PollOk.

(** *** The loop of lines 154-187 *)
Inductive step :=
| Continue (st : state)
| Stop (s : status) (st : state).

Definition nil_dereference : string :=
  "invalid memory address or nil pointer dereference".

(** Lines 174-186: the termination check and the wait. *)
Definition schedule (it : iteration) (st : state) : step :=
  if hasNext (gen st) then
    match woken it with
    | Tick => Continue st
    | Cancelled => Stop (Returned None) st
    end
  else Stop (Returned None) st.

(** Lines 167-172: the response record. *)
Definition report_response (it : iteration) (event : option loc) (st : state)
  : step :=
  match exchange it with
  | inl _ => schedule it st
  | inr res =>
    match responseInfo (gen st) (store st) (now_response it) res event with
    | (h, None) => Stop (Panicked nil_dereference) (mkState (gen st) h (vented st))
    | (h, Some info) =>
      let st := mkState (gen st) h (vented st ++ [info]) in
      match vent_response it with
      | Some err => Stop (Returned (Some (CannotForward err))) st
      | None => schedule it st
      end
    end
  end.

(** Lines 156-165: build, exchange, the sent record. *)
Definition sending (ctx : ctx_encoding) (it : iteration) (st : state) : step :=
  match next ctx (now_build it) (gen st) (store st) with
  | (g, h, Fail err) =>
    Stop (Returned (Some (NextFailed err))) (mkState g h (vented st))
  | (g, h, Panic msg) => Stop (Panicked msg) (mkState g h (vented st))
  | (g, h, Ok (req, event)) =>
    let err := match exchange it with inl err => Some err | inr _ => None end in
    match sentInfo g h (now_sent it) event req err with
    | None => Stop (Panicked nil_dereference) (mkState g h (vented st))
    | Some info =>
      let st := mkState g h (vented st ++ [info]) in
      match vent_sent it with
      | Some err => Stop (Returned (Some (CannotForward err))) st
      | None => report_response it event st
      end
    end
  end.

Fixpoint loop (ctx : ctx_encoding) (its : list iteration) (st : state)
  : status * state :=
  match its with
  | [] => (Running, st)
  | it :: its =>
    match sending ctx it st with
    | Continue st => loop ctx its st
    | Stop s st => (s, st)
    end
  end.

(** *** [Start] *)
Definition encoding_of (s : string) : option ctx_encoding :=
  if decide (s = "binary") then Some WithEncodingBinary
  else if decide (s = "structured") then Some WithEncodingStructured
  else None.

Definition zero_Config : Config :=
  mkConfig "" "" 0 false 0 "" "" ∅ "" "" false false false false 0 0.

(** Lines 136-187: the client, the encoding, the ticker and the loop.
    [time.NewTicker] panics when the period is not positive. *)
Definition steady (env : generator) (h : heap) (w : World) : status * state :=
  let st := mkState env h [] in
  let period := seconds (Period (cfg env)) in
  match encoding_of (EventEncoding (cfg env)) with
  | None =>
    (Returned (Some (UnsupportedEncoding (EventEncoding (cfg env)))), st)
  | Some ctx =>
    if decide (period ≤ 0)%Z
    then (Panicked "non-positive interval for NewTicker", st)
    else loop ctx (iterations w) st
  end.

(** [environ] is what [envconfig.Process] returns: an error, or the fields
    it has filled in.  The start-up sleep changes nothing that is modelled
    here. *)
Definition Start (environ : error + Config) (w : World) : status * state :=
  match environ with
  | inl err =>
    (Returned (Some (ProcessFailed err)),
     mkState (mkGenerator zero_Config None 0) [] [])
  | inr c =>
    let env := mkGenerator c None 0 in
    match init env [] with
    | (env, h, Some e) => (Returned (Some (InitFailed e)), mkState env h [])
    | (env, h, None) =>
      match probing env w with
      | PollErr err =>
        (Returned (Some (ProbingFailed (Sink (cfg env))
                           (seconds (ProbeSinkTimeout (cfg env))) err)),
         mkState env h [])
      | PollPending => (Running, mkState env h [])
      | PollOk => steady env h w
      end
    end
  end.

(** The clone of the template after the overrides of lines 301-310, for a
    generator whose counter has already been incremented. *)
Definition stamped (g : generator) (now : Instant) (base : Event) : Event :=
  let e := Clone base in
  let e := if AddSequence (cfg g)
           then SetExtension "sequence" (ExtInt (sequence g)) e else e in
  let e := if IncrementalId (cfg g) then SetID (Itoa (sequence g)) e else e in
  if OverrideTime (cfg g) then SetTime now e else e.

End Sender.

(** ** Reading the log *)

Definition sent_records (log : list EventInfo) : list EventInfo :=
  filter (λ i, Kind i = EventSent) log.

Definition response_records (log : list EventInfo) : list EventInfo :=
  filter (λ i, Kind i = EventResponse) log.

(** The event a record points to, if any. *)
Definition event_of (h : heap) (i : EventInfo) : option Event :=
  l ← ei_Event i; h !! l.

(** The state a step leaves. *)
Definition state_of (s : step) : state :=
  match s with
  | Continue st => st
  | Stop _ st => st
  end.

(** The sequence numbers [1 .. n] as the records carry them. *)
Definition numbers (n : nat) : list Z := Z.of_nat <$> seq 1 n.

(** An iteration in which the event log accepts both records. *)
Definition accepted (it : iteration) : Prop :=
  vent_sent it = None ∧ vent_response it = None.

(** An iteration whose wait ends with a tick of the ticker. *)
Definition ticking (it : iteration) : Prop := woken it = Tick.

(** A log in which every response record directly follows a sent record. *)
Fixpoint ordered (after_sent : bool) (log : list EventInfo) : bool :=
  match log with
  | [] => true
  | i :: log =>
    match Kind i with
    | EventSent => ordered true log
    | EventResponse => after_sent && ordered false log
    end
  end.

(** The template is configured: [init] parses [base] from [InputEvent]. *)
Definition template `{Externals} (c : Config) (base : Event) : Prop :=
  InputEvent c ≠ "" ∧ Unmarshal (InputEvent c) = inr (Some base).

(** No template is configured: [init] leaves [baseEvent] nil. *)
Definition no_template `{Externals} (c : Config) : Prop :=
  InputEvent c = "" ∨ Unmarshal (InputEvent c) = inr None.

(** ** Invariants of a run with a template *)

(** The sequence number [k] as a record carries it. *)
Definition wire (k : nat) : Z := GoInt.uint64 (GoInt.wrap (Z.of_nat k)).

(** The event that the [k]-th call of [next] builds from the template. *)
Definition built (c : Config) (base : Event) (k : nat) (now : Instant) : Event :=
  stamped (mkGenerator c None (GoInt.wrap (Z.of_nat k))) now base.

(** The generator still has its configuration and its template. *)
Definition intact (c : Config) (b : loc) (base : Event) (st : state) : Prop :=
  cfg (gen st) = c ∧ baseEvent (gen st) = Some b ∧ store st !! b = Some base.

(** A log of [n] iterations: the sent records are numbered [1 .. n], the
    response records carry some of these numbers in increasing order, and
    the [k]-th sent record carries the id of the [k]-th built event and
    points to it, if it points to an event at all. *)
Record consistent (c : Config) (base : Event) (log : list EventInfo)
    (h : heap) (n : nat) : Prop := mkConsistent {
  consistent_sent : Sequence <$> sent_records log = wire <$> seq 1 n;
  consistent_response :
    sublist (Sequence <$> response_records log) (wire <$> seq 1 n);
  consistent_events : ∀ k i,
    sent_records log !! k = Some i →
    ∃ now, SentId i = ID (built c base (S k) now)
           ∧ ∀ l, ei_Event i = Some l → h !! l = Some (built c base (S k) now)
}.

(** The event that pass [k] (counted from 0) of a run with the template
    [base] builds can be encoded into the request [req]: the call of
    [WriteRequest] in that pass returns no error. *)
Definition encodable `{Externals} (c : Config) (base : Event)
    (ctx : ctx_encoding) (req : Request) (k : nat) (it : iteration) : Prop :=
  ∃ req', WriteRequest ctx (built c base (S k) (now_build it)) req = inr req'.

(** ** A concrete setting

    Library calls that never fail, with an encoder that writes the id and
    type of the event to headers (binary) or to the body (structured). *)
Definition sample_WriteRequest (ctx : ctx_encoding) (e : Event) (req : Request)
  : error + Request :=
  match ctx with
  | WithEncodingBinary =>
    inr (mkRequest (req_Method req) (req_URL req)
           (<["Ce-Id" := [ev_ID e]]> (<["Ce-Type" := [ev_Type e]]> (req_Header req)))
           (Some (ev_Data e)))
  | WithEncodingStructured =>
    inr (mkRequest (req_Method req) (req_URL req)
           (<["Content-Type" := ["application/cloudevents+json"]]> (req_Header req))
           (Some (String.list_byte_of_string (ev_ID e +:+ ev_Type e))))
  end.

Definition sample_base : Event := mkEvent "a" "t" None ∅ [].

Definition sample_Unmarshal (s : string) : error + option Event :=
  if decide (s = "null") then inr None
  else if decide (s = "{id:a,type:t}") then inr (Some sample_base)
  else inl (mkError "invalid character").

Definition sample : Externals :=
  Build_Externals (λ _ _, None) sample_WriteRequest sample_Unmarshal (λ k, k)
                  map_to_list (λ m, reflexivity _).

(** The configuration of the spec's example, for a given period, maximum
    and static body. *)
Definition example_config (period max : Z) (body : string) : Config :=
  mkConfig "sender" "http://X" 0%Z false 60%Z "{id:a,type:t}" "binary" ∅ body
           "POST" false true false false period max.

(** A sender without a template: static body only. *)
Definition body_only_config (max : Z) : Config :=
  mkConfig "sender" "http://X" 0%Z false 60%Z "" "structured" ∅ "ping"
           "POST" false true false false 1%Z max.

Definition refused : error := mkError "connection refused".

Definition answer (status : Z) : Response :=
  mkResponse status ∅ EncodingUnknown (inr []) (inl (mkError "unknown encoding")).

(** An exchange that is answered, both records accepted. *)
Definition smooth (w : wake) : iteration :=
  mkIteration 10%Z (inr (answer 202%Z)) 11%Z None 12%Z None w.

(** An exchange that fails in the transport, the sent record accepted. *)
Definition broken (w : wake) : iteration :=
  mkIteration 10%Z (inl refused) 11%Z None 12%Z None w.

(** An answered exchange whose sent record the event log does not take. *)
Definition rejected : iteration :=
  mkIteration 10%Z (inr (answer 202%Z)) 11%Z (Some (mkError "log full")) 12%Z None Tick.

Definition sample_world (its : list iteration) : World :=
  mkWorld (ProbeFailed refused) [] its.

(** The example with probing switched on, for a given period and maximum. *)
Definition probing_config (period max : Z) : Config :=
  mkConfig "sender" "http://X" 0%Z true 60%Z "{id:a,type:t}" "binary" ∅ ""
           "POST" false true false false period max.

Definition probing_world (first : probe) (rest : list probe)
    (its : list iteration) : World :=
  mkWorld first rest its.

(** ** Further notions for the run *)

(** The ways the loop itself can leave [Start]: a nil return, the error of
    [next], the error of the event log, a panic; or it is still running. *)
Definition loop_outcome (s : status) : Prop :=
  match s with
  | Returned None => True
  | Returned (Some (NextFailed _)) => True
  | Returned (Some (CannotForward _)) => True
  | Returned (Some _) => False
  | Panicked _ => True
  | Running => True
  end.

(** A log whose records all name [sender] as observer, whose sent records
    name it as origin too, and whose response records name [sink] as origin
    and repeat the sequence number and the sent identifier of the sent
    record directly before them ([prev]). *)
Fixpoint correlated (sender sink : string) (prev : option EventInfo)
    (log : list EventInfo) : Prop :=
  match log with
  | [] => True
  | i :: log =>
    Observer i = sender ∧
    match Kind i with
    | EventSent => Origin i = sender ∧ correlated sender sink (Some i) log
    | EventResponse =>
      Origin i = sink
      ∧ (∃ s, prev = Some s ∧ SentId i = SentId s ∧ Sequence i = Sequence s)
      ∧ correlated sender sink None log
    end
  end.

(** A template with extensions and a time, and a configuration with every
    override and two static headers. *)
Definition rich_base : Event :=
  mkEvent "a" "t" (Some 3%Z) {["color" := ExtString "red"]} [Byte.x68; Byte.x69].

Definition rich_Unmarshal (s : string) : error + option Event :=
  if decide (s = "null") then inr None
  else if decide (s = "{id:a,type:t,color:red}") then inr (Some rich_base)
  else inl (mkError "invalid character").

(** Library calls in which the sink address "::" cannot be parsed and the
    event with id "3" cannot be encoded. *)
Definition picky_NewRequest_error (method url : string) : option error :=
  if decide (url = "::") then Some (mkError "missing protocol scheme") else None.

Definition picky_WriteRequest (ctx : ctx_encoding) (e : Event) (req : Request)
  : error + Request :=
  if decide (ev_ID e = "3") then inl (mkError "cannot encode")
  else sample_WriteRequest ctx e req.

Definition picky : Externals :=
  Build_Externals picky_NewRequest_error picky_WriteRequest rich_Unmarshal
                  (λ k, k) map_to_list (λ m, reflexivity _).

Definition full_config (sink encoding : string) (max : Z) : Config :=
  mkConfig "sender" sink 0%Z true 60%Z "{id:a,type:t,color:red}" encoding
           {["x-a" := "1"; "x-b" := "2"]} "ping" "" false true true true 1%Z max.

(** A sender with nothing to send. *)
Definition empty_config : Config :=
  mkConfig "sender" "http://X" 0%Z true 60%Z "" "binary" ∅ "" "POST"
           false false false false 1%Z 1%Z.

(** A sender whose input event is not JSON, with a static body. *)
Definition garbled_config : Config :=
  mkConfig "sender" "http://X" 0%Z true 60%Z "{id:" "binary" ∅ "ping" "POST"
           false false false false 1%Z 1%Z.

(** An answered exchange whose response record the event log refuses. *)
Definition half_rejected : iteration :=
  mkIteration 10%Z (inr (answer 202%Z)) 11%Z None 12%Z
              (Some (mkError "log full")) Tick.

(** An answer that carries an event. *)
Definition event_answer : Response :=
  mkResponse 200%Z {["Ce-Id" := ["r"]]} EncodingBinary (inr [])
             (inr (mkEvent "r" "reply" None ∅ [])).

Definition replied (w : wake) : iteration :=
  mkIteration 10%Z (inr event_answer) 11%Z None 12%Z None w.

Definition answered_world (its : list iteration) : World :=
  mkWorld (ProbeAnswered 200%Z) [] its.

(** The example with probing switched on and a probing timeout of zero. *)
Definition endless_probing_config : Config :=
  mkConfig "sender" "http://X" 0%Z true 0%Z "{id:a,type:t}" "binary" ∅ ""
           "POST" false true false false 1%Z 2%Z.

(** * Theorems *)

(** ** Machine integers *)

Section GoIntFacts.
Import GoInt.
Local Open Scope Z_scope.

Lemma wrap_small z : is_int z -> wrap z = z.
Proof.
  unfold is_int, wrap, min_int, max_int. intros Hz.
  rewrite Z.mod_small; lia.
Qed.

Lemma wrap_is_int z : is_int (wrap z).
Proof.
  unfold is_int, wrap, min_int, max_int.
  pose proof (Z.mod_pos_bound (z + 2 ^ 63) (2 ^ 64)). lia.
Qed.

Lemma uint64_small z : 0 <= z <= max_int -> uint64 z = z.
Proof.
  unfold uint64, max_int. intros Hz. rewrite Z.mod_small; lia.
Qed.

Lemma succ_small z : 0 <= z < max_int -> wrap (z + 1) = z + 1.
Proof.
  intros Hz. apply wrap_small. unfold is_int, min_int, max_int in *. lia.
Qed.

Lemma wrap_succ z : wrap (wrap z + 1) = wrap (z + 1).
Proof.
  unfold wrap. f_equal.
  replace ((z + 2 ^ 63) mod 2 ^ 64 - 2 ^ 63 + 1 + 2 ^ 63)
    with ((z + 2 ^ 63) mod 2 ^ 64 + 1) by lia.
  rewrite Zplus_mod_idemp_l. f_equal. lia.
Qed.

Lemma wrap_uint64_small z : 0 <= z <= max_int -> uint64 (wrap z) = z.
Proof.
  intros Hz. rewrite wrap_small by (unfold is_int, min_int, max_int in *; lia).
  by apply uint64_small.
Qed.
End GoIntFacts.

(** ** Properties of [next] *)

Section NextFacts.
Context `{Externals}.

Lemma alter_fresh (f : Event → Event) (h : heap) (e : Event) :
  alter f (length h) (h ++ [e]) = h ++ [f e].
Proof.
  replace (length h) with (length h + 0) at 1 by lia.
  by rewrite alter_app_r.
Qed.

Lemma next_template ctx now g h b base req :
  baseEvent g = Some b →
  h !! b = Some base →
  NewRequest (InputMethod (cfg g)) (Sink (cfg g)) = inr req →
  let g' := set_sequence (GoInt.wrap (sequence g + 1)) g in
  let e := stamped g' now base in
  next ctx now g h =
    (g', h ++ [e],
     match WriteRequest ctx e req with
     | inl err => Fail err
     | inr req => Ok (set_input_body g' (add_input_headers g' req), Some (length h))
     end).
Proof.
  intros Hb Hbase Hreq. unfold next, stamped. rewrite Hreq, Hb, Hbase. simpl.
  destruct (AddSequence (cfg g)), (IncrementalId (cfg g)), (OverrideTime (cfg g));
    rewrite ?alter_fresh, list_lookup_middle by done;
    by destruct (WriteRequest _ _ _).
Qed.

Lemma next_no_template ctx now g h req :
  baseEvent g = None →
  NewRequest (InputMethod (cfg g)) (Sink (cfg g)) = inr req →
  next ctx now g h = (g, h, Ok (set_input_body g (add_input_headers g req), None)).
Proof. intros Hb Hreq. unfold next. by rewrite Hreq, Hb. Qed.

Lemma next_request_error ctx now g h err :
  NewRequest (InputMethod (cfg g)) (Sink (cfg g)) = inl err →
  next ctx now g h = (g, h, Fail err).
Proof. intros Hreq. unfold next. by rewrite Hreq. Qed.

(** The four ways a call of [next] can go. *)
Lemma next_cases ctx now g h :
  (∃ err, NewRequest (InputMethod (cfg g)) (Sink (cfg g)) = inl err
          ∧ next ctx now g h = (g, h, Fail err))
  ∨ (∃ req, NewRequest (InputMethod (cfg g)) (Sink (cfg g)) = inr req
            ∧ baseEvent g = None
            ∧ next ctx now g h
              = (g, h, Ok (set_input_body g (add_input_headers g req), None)))
  ∨ (∃ b, baseEvent g = Some b ∧ h !! b = None
          ∧ next ctx now g h = (g, h, Panic nil_dereference))
  ∨ (∃ req b base,
       NewRequest (InputMethod (cfg g)) (Sink (cfg g)) = inr req
       ∧ baseEvent g = Some b ∧ h !! b = Some base
       ∧ let g' := set_sequence (GoInt.wrap (sequence g + 1)) g in
         let e := stamped g' now base in
         next ctx now g h =
           (g', h ++ [e],
            match WriteRequest ctx e req with
            | inl err => Fail err
            | inr req =>
              Ok (set_input_body g' (add_input_headers g' req), Some (length h))
            end)).
Proof.
  destruct (NewRequest (InputMethod (cfg g)) (Sink (cfg g))) as [err|req] eqn:Hreq.
  { left. exists err. split; [done|]. by apply next_request_error. }
  destruct (baseEvent g) as [b|] eqn:Hb.
  2:{ right; left. exists req. split_and!; try done. by apply next_no_template. }
  destruct (h !! b) as [base|] eqn:Hbase.
  - do 3 right. exists req, b, base. split_and!; try done.
    by eapply next_template.
  - right; right; left. exists b. split_and!; try done.
    unfold next. by rewrite Hreq, Hb, Hbase.
Qed.

Lemma next_frame ctx now g h g' h' r :
  next ctx now g h = (g', h', r) →
  cfg g' = cfg g ∧ baseEvent g' = baseEvent g ∧ h `prefix_of` h'.
Proof.
  intros Hnext.
  destruct (next_cases ctx now g h)
    as [(err & _ & Hn)|[(req & _ & _ & Hn)|[(b & _ & _ & Hn)
       |(req & b & base & _ & _ & _ & Hn)]]];
    simpl in Hn; rewrite Hn in Hnext; simplify_eq; split_and!; try done.
  by apply prefix_app_r.
Qed.

Lemma set_input_body_static g req :
  InputBody (cfg g) ≠ "" →
  req_Body (set_input_body g req)
  = Some (String.list_byte_of_string (InputBody (cfg g))).
Proof. intros Hbody. unfold set_input_body. by rewrite decide_True. Qed.

(** C4. When a static body is configured, every request that [next]
    returns has exactly the bytes of that body as its body, in binary and in
    structured mode, whether or not an event was encoded into the request. *)
Theorem static_body_replaces (ctx : ctx_encoding) (now : Instant)
    (g g' : generator) (h h' : heap) (req : Request) (event : option loc) :
  InputBody (cfg g) ≠ "" →
  next ctx now g h = (g', h', Ok (req, event)) →
  req_Body req = Some (String.list_byte_of_string (InputBody (cfg g))).
Proof.
  intros Hbody Hnext.
  destruct (next_cases ctx now g h)
    as [(err & _ & Hn)|[(r & _ & _ & Hn)|[(b & _ & _ & Hn)
       |(r & b & base & _ & _ & _ & Hn)]]];
    simpl in Hn; rewrite Hn in Hnext; simplify_eq.
  - by apply set_input_body_static.
  - destruct (WriteRequest _ _ _); simplify_eq.
    by apply (set_input_body_static (set_sequence _ g)).
Qed.

End NextFacts.

(** Witness of C4: a binary-mode request built from the template, and a
    structured-mode request built without one. *)
Lemma static_body_replaces_witness :
  (∃ g' h' req l,
     @next sample WithEncodingBinary 10%Z
           (mkGenerator (example_config 1 2 "ping") (Some 0) 0) [sample_base]
     = (g', h', Ok (req, Some l))
     ∧ req_Body req = Some (String.list_byte_of_string "ping"))
  ∧ (∃ g' h' req,
       @next sample WithEncodingStructured 10%Z
             (mkGenerator (body_only_config 1) None 0) []
       = (g', h', Ok (req, None))
       ∧ req_Body req = Some (String.list_byte_of_string "ping")).
Proof.
  split.
  - eexists _, _, _, _. split; [vm_compute; reflexivity|].
    refine (@static_body_replaces sample WithEncodingBinary 10%Z
              (mkGenerator (example_config 1 2 "ping") (Some 0) 0) _
              [sample_base] _ _ _ _ _); [done|vm_compute; reflexivity].
  - eexists _, _, _. split; [vm_compute; reflexivity|].
    refine (@static_body_replaces sample WithEncodingStructured 10%Z
              (mkGenerator (body_only_config 1) None 0) _ [] _ _ _ _ _);
      [done|vm_compute; reflexivity].
Defined.

(** ** The outcome reporter *)

Section Reporter.
Context `{Externals}.

Lemma eventId_nil (h : heap) : eventId h None = Some "".
Proof. done. Qed.

Lemma eventId_valid (h : heap) (l : loc) (e : Event) :
  h !! l = Some e → eventId h (Some l) = Some (ID e).
Proof. intros Hl. simpl. by rewrite Hl. Qed.

(** C8. A call [sentInfo(event, req, err)] with [err] not nil returns a
    record of kind Sent that carries the message of [err], the sender's name
    as origin and as observer, the sequence counter converted to [uint64]
    (the counter itself when it is not negative), and as sent identifier the
    id of the event when there is one and the empty string otherwise.  The
    record has no event, no headers and no body; besides these it holds the
    time of the call and the zero status code. *)
Theorem sentInfo_error_record (g : generator) (h : heap) (now : Instant)
    (event : option loc) (req : Request) (err : error) :
  let record id :=
    mkEventInfo EventSent (Error err) None None None 0
                (SenderName (cfg g)) (SenderName (cfg g)) now
                (GoInt.uint64 (sequence g)) id in
  (event = None → sentInfo g h now event req (Some err) = Some (record ""))
  ∧ (∀ l e, event = Some l → h !! l = Some e →
       sentInfo g h now event req (Some err) = Some (record (ID e)))
  ∧ ((0 ≤ sequence g ≤ GoInt.max_int)%Z →
       GoInt.uint64 (sequence g) = sequence g).
Proof.
  intros record. split_and!.
  - intros ->. done.
  - intros l e -> Hl. unfold sentInfo. by rewrite (eventId_valid _ _ _ Hl).
  - apply uint64_small.
Qed.

Lemma responseInfo_total (g : generator) (h : heap) (now : Instant)
    (res : Response) (event : option loc) (id : string) :
  eventId h event = Some id →
  ∃ h' info, responseInfo g h now res event = (h', Some info).
Proof.
  intros Hid. unfold responseInfo. rewrite Hid.
  repeat case_match; eauto.
Qed.

(** C9. [responseInfo(res, event)] always returns a record of kind
    Response with the headers and status of the response.  When the encoding
    of the response is unknown, the record holds the whole body that was read
    and no event; when reading the body fails it holds the message of that
    error and no body.  When the encoding is known, the record points to the
    decoded event and holds no body; when decoding fails it holds the message
    of that error and no event. *)
Theorem responseInfo_body (g : generator) (h : heap) (now : Instant)
    (res : Response) (event : option loc) (id : string) :
  eventId h event = Some id →
  ∃ h' info,
    responseInfo g h now res event = (h', Some info)
    ∧ (Kind info = EventResponse
       ∧ HTTPHeaders info = Some (res_Header res)
       ∧ StatusCode info = res_StatusCode res
       ∧ Origin info = Sink (cfg g)
       ∧ Observer info = SenderName (cfg g)
       ∧ ei_Time info = now
       ∧ Sequence info = GoInt.uint64 (sequence g)
       ∧ SentId info = id)
    ∧ (res_ReadEncoding res = EncodingUnknown →
         h' = h ∧ ei_Event info = None ∧
         match res_ReadAll res with
         | inr body => Body info = Some body ∧ ei_Error info = ""
         | inl err => Body info = None ∧ ei_Error info = Error err
         end)
    ∧ (res_ReadEncoding res ≠ EncodingUnknown →
         Body info = None ∧
         match res_ToEvent res with
         | inr ev => h' = h ++ [ev] ∧ event_of h' info = Some ev
                     ∧ ei_Error info = ""
         | inl err => h' = h ∧ ei_Event info = None
                      ∧ ei_Error info = Error err
         end).
Proof.
  intros Hid. unfold responseInfo. rewrite Hid.
  destruct (decide (res_ReadEncoding res = EncodingUnknown)) as [Hu|Hk].
  - destruct (res_ReadAll res) as [err|body] eqn:Hread;
      eexists _, _; (split; [done|]); simpl; rewrite ?Hread; naive_solver.
  - destruct (res_ToEvent res) as [err|ev] eqn:Hev;
      eexists _, _; (split; [done|]); simpl; rewrite ?Hev;
      split_and!; try done; intros _; split_and!; try done.
    unfold event_of. simpl. by apply list_lookup_middle.
Qed.

Lemma responseInfo_prefix (g : generator) (h : heap) (now : Instant)
    (res : Response) (event : option loc) :
  h `prefix_of` (responseInfo g h now res event).1.
Proof.
  unfold responseInfo. repeat case_match; simpl; try done.
  by apply prefix_app_r.
Qed.

Lemma responseInfo_kind g h now res event h' info :
  responseInfo g h now res event = (h', Some info) →
  Kind info = EventResponse ∧ Sequence info = GoInt.uint64 (sequence g).
Proof.
  unfold responseInfo. repeat case_match; intros; simplify_eq; done.
Qed.

Lemma sentInfo_kind g h now event req err info :
  sentInfo g h now event req err = Some info →
  Kind info = EventSent ∧ Sequence info = GoInt.uint64 (sequence g)
  ∧ eventId h event = Some (SentId info)
  ∧ (ei_Event info = None ∨ ei_Event info = event)
  ∧ (err = None → ei_Event info = event).
Proof.
  unfold sentInfo. destruct (eventId h event) as [id|]; [|done]. simpl.
  destruct err; intros; simplify_eq; simpl; split_and!; auto; done.
Qed.

End Reporter.

(** Witness of C8: the record for a refused connection on the first event. *)
Lemma sentInfo_error_record_witness :
  sentInfo (mkGenerator (example_config 1 2 "") (Some 0) 1)
            [sample_base; sample_base] 11%Z (Some 1) (mkRequest "POST" "http://X" ∅ None)
            (Some refused)
  = Some (mkEventInfo EventSent "connection refused" None None None 0
                      "sender" "sender" 11%Z 1%Z "a").
Proof.
  pose proof (sentInfo_error_record
                (mkGenerator (example_config 1 2 "") (Some 0) 1)
                [sample_base; sample_base] 11%Z (Some 1)
                (mkRequest "POST" "http://X" ∅ None) refused) as (_ & Hev & _).
  exact (Hev 1 sample_base eq_refl eq_refl).
Defined.

(** Witness of C9: an answer in an unknown encoding, with an empty body. *)
Lemma responseInfo_body_witness :
  ∃ h' info,
    responseInfo (mkGenerator (example_config 1 2 "") (Some 0) 1)
                  [sample_base; sample_base] 12%Z (answer 202) (Some 1)
    = (h', Some info)
    ∧ Kind info = EventResponse ∧ Body info = Some [] ∧ SentId info = "a".
Proof.
  destruct (responseInfo_body
              (mkGenerator (example_config 1 2 "") (Some 0) 1)
              [sample_base; sample_base] 12%Z (answer 202) (Some 1) "a" eq_refl)
    as (h' & info & Hrun & (Hkind & _ & _ & _ & _ & _ & _ & Hid) & Hunknown & _).
  exists h', info. destruct (Hunknown eq_refl) as (_ & _ & Hbody & _).
  by split_and!.
Defined.

(** ** One pass through the loop body *)

Section Iteration.
Context `{Externals}.

Lemma sent_records_snoc log i tail :
  Kind i = EventSent →
  Forall (λ r, Kind r = EventResponse) tail →
  sent_records (log ++ i :: tail) = sent_records log ++ [i].
Proof.
  intros Hi Htail. unfold sent_records.
  rewrite filter_app, filter_cons_True by done. do 2 f_equal.
  induction Htail as [|r tail Hr _ IH]; [done|].
  rewrite filter_cons_False; [done|]. rewrite Hr. done.
Qed.

Lemma response_records_snoc log i tail :
  Kind i = EventSent →
  Forall (λ r, Kind r = EventResponse) tail →
  response_records (log ++ i :: tail) = response_records log ++ tail.
Proof.
  intros Hi Htail. unfold response_records.
  rewrite filter_app, filter_cons_False by (rewrite Hi; done). f_equal.
  induction Htail as [|r tail Hr _ IH]; [done|].
  rewrite filter_cons_True by done. by f_equal.
Qed.

Lemma ordered_snoc a log i tail :
  Kind i = EventSent →
  Forall (λ r, Kind r = EventResponse) tail →
  length tail ≤ 1 →
  ordered a log = true → ordered a (log ++ i :: tail) = true.
Proof.
  intros Hi Htail Hlen. revert a.
  induction log as [|j log IH]; intros a Hlog; simpl in *.
  - rewrite Hi. destruct Htail as [|r tail Hr Htail]; [done|].
    simpl. rewrite Hr. simpl. destruct tail; [done|simpl in Hlen; lia].
  - destruct (Kind j); [by apply IH|].
    apply andb_true_iff in Hlog as [-> Hlog]. simpl. by apply IH.
Qed.

(** What a pass does once [next] has returned a request: the sent record,
    then at most one response record, then either the scheduling decision or
    the return with the error of the event log. *)
Lemma sending_shape ctx it st g h req event id :
  next ctx (now_build it) (gen st) (store st) = (g, h, Ok (req, event)) →
  eventId h event = Some id →
  ∃ info tail h',
    let st1 := mkState g h' (vented st ++ info :: tail) in
    (Kind info = EventSent
     ∧ Sequence info = GoInt.uint64 (sequence g)
     ∧ SentId info = id
     ∧ (ei_Event info = None ∨ ei_Event info = event)
     ∧ ((∃ res, exchange it = inr res) → ei_Event info = event))
    ∧ Forall (λ r, Kind r = EventResponse
                   ∧ Sequence r = GoInt.uint64 (sequence g)) tail
    ∧ length tail ≤ 1
    ∧ h `prefix_of` h'
    ∧ (sending ctx it st = schedule it st1
       ∨ ∃ err, sending ctx it st = Stop (Returned (Some (CannotForward err))) st1)
    ∧ (vent_sent it = None →
       (tail ≠ [] ↔ ∃ res, exchange it = inr res)
       ∧ ((∃ err, exchange it = inl err) → sending ctx it st = schedule it st1)
       ∧ (vent_response it = None → sending ctx it st = schedule it st1)).
Proof.
  intros Hnext Hid. unfold sending. rewrite Hnext.
  destruct (sentInfo g h (now_sent it) event req _) as [info|] eqn:Hsent.
  2:{ unfold sentInfo in Hsent. rewrite Hid in Hsent. simpl in Hsent.
      by destruct (exchange it). }
  destruct (sentInfo_kind _ _ _ _ _ _ _ Hsent) as (Hk & Hseq & Hid' & Hev & Hans).
  assert (SentId info = id) as Hsid by congruence.
  assert ((∃ res, exchange it = inr res) → ei_Event info = event) as Hans'.
  { intros [res Hres]. apply Hans. by rewrite Hres. }
  destruct (vent_sent it) as [verr|] eqn:Hvent.
  { exists info, [], h. split_and!; try done; eauto. }
  unfold report_response. simpl.
  destruct (exchange it) as [err|res] eqn:Hex.
  { exists info, [], h. split_and!; try done; eauto.
    intros _. split_and!; try done. split; [done|]. by intros [? ?]. }
  destruct (responseInfo_total g h (now_response it) res event id Hid)
    as (h' & rinfo & Hresp).
  destruct (responseInfo_kind _ _ _ _ _ _ _ Hresp) as (Hrk & Hrseq).
  pose proof (responseInfo_prefix g h (now_response it) res event) as Hpre.
  rewrite Hresp in *. simpl in Hpre.
  exists info, [rinfo], h'.
  replace ((vented st ++ [info]) ++ [rinfo]) with (vented st ++ [info; rinfo])
    by by rewrite <- app_assoc.
  destruct (vent_response it) as [rerr|] eqn:Hrvent.
  - split_and!; try done; eauto.
    intros _. split_and!; try done.
    + split; [eauto|done].
    + by intros [? ?].
  - split_and!; try done; eauto.
    intros _. split_and!; try done. split; [eauto|done].
Qed.

(** The pointer that [next] returns is nil or points to the clone. *)
Lemma next_event_valid ctx now g h g' h' req event :
  next ctx now g h = (g', h', Ok (req, event)) →
  ∃ id, eventId h' event = Some id.
Proof.
  intros Hnext.
  destruct (next_cases ctx now g h)
    as [(err & _ & Hn)|[(r & _ & _ & Hn)|[(b & _ & _ & Hn)
       |(r & b & base & _ & _ & _ & Hn)]]];
    simpl in Hn; rewrite Hn in Hnext; simplify_eq.
  - by exists "".
  - destruct (WriteRequest _ _ _); simplify_eq.
    eexists. apply eventId_valid. by apply list_lookup_middle.
Qed.

(** The log stays ordered over a pass. *)
Lemma sending_ordered ctx it st :
  ordered false (vented st) = true →
  ordered false (vented (state_of (sending ctx it st))) = true.
Proof.
  intros Hord.
  destruct (next ctx (now_build it) (gen st) (store st)) as [[g h] r] eqn:Hnext.
  destruct r as [[req event]|err|msg];
    [|unfold sending; by rewrite Hnext..].
  destruct (next_event_valid _ _ _ _ _ _ _ _ Hnext) as [id Hid].
  destruct (sending_shape _ _ _ _ _ _ _ _ Hnext Hid)
    as (info & tail & h' & (Hk & _) & Htail & Hlen & _ & Hrun & _).
  assert (ordered false (vented st ++ info :: tail) = true) as Hord'.
  { apply ordered_snoc; try done. eapply Forall_impl; [done|]. by intros ? [? _]. }
  unfold schedule in Hrun.
  destruct Hrun as [Hrun|[err Hrun]]; rewrite Hrun; repeat case_match; done.
Qed.

Lemma loop_ordered ctx its st :
  ordered false (vented st) = true →
  ordered false (vented (loop ctx its st).2) = true.
Proof.
  revert st. induction its as [|it its IH]; intros st Hord; [done|].
  simpl. pose proof (sending_ordered ctx it st Hord) as Hstep.
  destruct (sending ctx it st) as [st'|s st']; simpl in *; [by apply IH|done].
Qed.

End Iteration.

(** ** Runs with a template *)

Section Template.
Context `{Externals} (c : Config) (base : Event).

Lemma stamped_built g now k :
  cfg g = c → sequence g = GoInt.wrap (Z.of_nat k) →
  stamped g now base = built c base k now.
Proof. intros Hc Hs. unfold built, stamped. simpl. by rewrite Hc, Hs. Qed.

Lemma built_sequence k now :
  AddSequence c = true →
  ev_Extensions (built c base k now) !! "sequence"
  = Some (ExtInt (GoInt.wrap (Z.of_nat k))).
Proof.
  intros Ha. unfold built, stamped. simpl. rewrite Ha.
  destruct (IncrementalId c), (OverrideTime c); simpl; by rewrite lookup_insert_eq.
Qed.

Lemma built_id_incremental k now :
  IncrementalId c = true →
  ID (built c base k now) = Itoa (GoInt.wrap (Z.of_nat k)).
Proof.
  intros Hi. unfold built, stamped. simpl. rewrite Hi.
  by destruct (AddSequence c), (OverrideTime c).
Qed.

Lemma built_id_unchanged k now :
  IncrementalId c = false → ID (built c base k now) = ID base.
Proof.
  intros Hi. unfold built, stamped. simpl. rewrite Hi.
  by destruct (AddSequence c), (OverrideTime c).
Qed.

Lemma built_type k now : ev_Type (built c base k now) = ev_Type base.
Proof.
  unfold built, stamped. simpl.
  by destruct (AddSequence c), (IncrementalId c), (OverrideTime c).
Qed.

Lemma consistent_nil h : consistent c base [] h 0.
Proof. split; simpl; try done. Qed.

Lemma consistent_length log h n :
  consistent c base log h n → length (sent_records log) = n.
Proof.
  intros [Hs _ _]. apply (f_equal length) in Hs.
  by rewrite !length_fmap, length_seq in Hs.
Qed.

Lemma consistent_mono log h h' n :
  consistent c base log h n → h `prefix_of` h' → consistent c base log h' n.
Proof.
  intros [Hs Hr He] Hpre. split; try done.
  intros k i Hk. destruct (He k i Hk) as (now & Hid & Hev).
  exists now. split; [done|]. intros l Hl.
  eapply prefix_lookup_Some; [by apply Hev|done].
Qed.

Lemma consistent_snoc log h n i tail now :
  consistent c base log h n →
  Kind i = EventSent →
  Sequence i = wire (S n) →
  SentId i = ID (built c base (S n) now) →
  (∀ l, ei_Event i = Some l → h !! l = Some (built c base (S n) now)) →
  Forall (λ r, Kind r = EventResponse ∧ Sequence r = wire (S n)) tail →
  length tail ≤ 1 →
  consistent c base (log ++ i :: tail) h (S n).
Proof.
  intros Hcons Hk Hseq Hid Hev Htail Hlen.
  pose proof (consistent_length _ _ _ Hcons) as Hn.
  destruct Hcons as [Hs Hr He].
  assert (Forall (λ r, Kind r = EventResponse) tail) as Htail'.
  { eapply Forall_impl; [done|]. by intros ? [? _]. }
  split.
  - rewrite sent_records_snoc, fmap_app, Hs, seq_S, fmap_app by done.
    simpl. by rewrite Hseq.
  - rewrite response_records_snoc, fmap_app, seq_S, fmap_app by done.
    apply sublist_app; [done|]. simpl.
    destruct Htail as [|r tail [_ Hrs] Htail]; simpl.
    + apply sublist_nil_l.
    + destruct tail; [|simpl in Hlen; lia]. simpl. by rewrite Hrs.
  - rewrite sent_records_snoc by done. intros k j Hj.
    apply lookup_app_Some in Hj as [Hj|[Hge Hj]]; [by apply He|].
    rewrite Hn in *. destruct (k - n) as [|m] eqn:Hkn; [|done].
    simpl in Hj. assert (j = i) as -> by congruence.
    assert (k = n) as -> by lia.
    exists now. done.
Qed.

(** The invariant of the loop: the template is where [init] put it, the
    counter is the number of passes made, the log is consistent. *)
Lemma sending_consistent ctx it st b n :
  intact c b base st →
  sequence (gen st) = GoInt.wrap (Z.of_nat n) →
  consistent c base (vented st) (store st) n →
  match sending ctx it st with
  | Continue st' =>
    intact c b base st'
    ∧ sequence (gen st') = GoInt.wrap (Z.of_nat (S n))
    ∧ consistent c base (vented st') (store st') (S n)
  | Stop _ st' =>
    intact c b base st'
    ∧ ∃ n', consistent c base (vented st') (store st') n'
  end.
Proof.
  intros (Hc & Hb & Hbase) Hseq Hcons.
  destruct (next_cases ctx (now_build it) (gen st) (store st))
    as [(err & _ & Hn)|[(r & _ & Hnone & _)|[(b' & Hb' & Hnone & _)
       |(req & b' & base' & _ & Hb' & Hbase' & Hn)]]];
    [|congruence|congruence|].
  { unfold sending. rewrite Hn. destruct st; simpl in *.
    split; [done|]. by exists n. }
  assert (b' = b) as -> by congruence.
  assert (base' = base) as -> by congruence.
  simpl in Hn.
  set (g' := set_sequence (GoInt.wrap (sequence (gen st) + 1)) (gen st)) in *.
  assert (sequence g' = GoInt.wrap (Z.of_nat (S n))) as Hseq'.
  { simpl. rewrite Hseq, wrap_succ. f_equal. lia. }
  assert (stamped g' (now_build it) base = built c base (S n) (now_build it))
    as Hbuilt by by apply stamped_built.
  rewrite Hbuilt in Hn. set (e := built c base (S n) (now_build it)) in *.
  assert ((store st ++ [e]) !! b = Some base) as Hbase1
    by by apply lookup_app_l_Some.
  destruct (WriteRequest ctx e req) as [err|req'] eqn:Hwrite.
  { unfold sending. rewrite Hn. split; [done|]. exists n.
    eapply consistent_mono; [done|]. by apply prefix_app_r. }
  assert (eventId (store st ++ [e]) (Some (length (store st))) = Some (ID e))
    as Hid by (apply eventId_valid; by apply list_lookup_middle).
  destruct (sending_shape _ _ _ _ _ _ _ _ Hn Hid)
    as (info & tail & h' & (Hk & Hs & Hsid & Hev & _) & Htail & Hlen & Hpre & Hrun & _).
  assert (consistent c base (vented st ++ info :: tail) h' (S n)) as Hcons'.
  { apply consistent_snoc with (now := now_build it); try done.
    - eapply consistent_mono; [done|].
      etrans; [|done]. by apply prefix_app_r.
    - unfold wire. by rewrite <- Hseq'.
    - intros l Hl. eapply prefix_lookup_Some; [|done].
      destruct Hev as [Hev|Hev]; [congruence|].
      rewrite Hev in Hl. simplify_eq. by apply list_lookup_middle.
    - eapply Forall_impl; [done|]. intros r [? Hr]. split; [done|].
      unfold wire. by rewrite <- Hseq'. }
  assert (intact c b base (mkState g' h' (vented st ++ info :: tail))) as Hint.
  { split_and!; try done. simpl. by eapply prefix_lookup_Some. }
  unfold schedule in Hrun.
  destruct Hrun as [Hrun|[err Hrun]]; rewrite Hrun; [|by eauto].
  repeat case_match; eauto.
Qed.

Lemma loop_consistent ctx its st b n :
  intact c b base st →
  sequence (gen st) = GoInt.wrap (Z.of_nat n) →
  consistent c base (vented st) (store st) n →
  intact c b base (loop ctx its st).2
  ∧ ∃ n', consistent c base (vented (loop ctx its st).2)
                     (store (loop ctx its st).2) n'.
Proof.
  revert st n. induction its as [|it its IH]; intros st n Hint Hseq Hcons.
  { simpl. eauto. }
  simpl. pose proof (sending_consistent ctx it st b n Hint Hseq Hcons) as Hstep.
  destruct (sending ctx it st) as [st'|s st'].
  - destruct Hstep as (? & ? & ?). by eapply IH.
  - done.
Qed.

Lemma init_template :
  template c base →
  init (mkGenerator c None 0) [] = (mkGenerator c (Some 0) 0, [base], None).
Proof.
  intros [Hne Hparse]. unfold init. simpl.
  rewrite decide_True, Hparse by done. simpl.
  rewrite decide_False; [done|]. by intros [? _].
Qed.

(** Every state that [Start] reaches: the template is intact and the log is
    consistent. *)
Lemma Start_consistent w :
  template c base →
  intact c 0 base (Start (inr c) w).2
  ∧ ∃ n, consistent c base (vented (Start (inr c) w).2)
                    (store (Start (inr c) w).2) n.
Proof.
  intros Ht. unfold Start, steady. rewrite (init_template Ht).
  assert (intact c 0 base (mkState (mkGenerator c (Some 0) 0) [base] [])) as Hint
    by done.
  assert (consistent c base [] [base] 0) as Hcons by apply consistent_nil.
  repeat case_match; simpl; eauto.
  by apply (loop_consistent _ _ _ 0 0).
Qed.

End Template.

(** ** The sequence counter and the template *)

Section Counter.
Context `{Externals}.

Lemma wire_small k : (Z.of_nat k ≤ GoInt.max_int)%Z → wire k = Z.of_nat k.
Proof. intros Hk. unfold wire. apply wrap_uint64_small. lia. Qed.

Lemma wire_numbers n :
  (Z.of_nat n ≤ GoInt.max_int)%Z → wire <$> seq 1 n = numbers n.
Proof.
  intros Hn. unfold numbers. apply Forall_fmap_ext, Forall_forall.
  intros k Hk%elem_of_seq. apply wire_small. lia.
Qed.

Lemma Start_idle_counter c p ps :
  sequence (gen (Start (inr c) (mkWorld p ps [])).2) = 0%Z.
Proof.
  unfold Start, steady, init. simpl. repeat case_match; simplify_eq; done.
Qed.

Lemma next_increments ctx now g h g' h' req l :
  next ctx now g h = (g', h', Ok (req, Some l)) →
  sequence g' = GoInt.wrap (sequence g + 1).
Proof.
  intros Hnext.
  destruct (next_cases ctx now g h)
    as [(err & _ & Hn)|[(r & _ & _ & Hn)|[(b & _ & _ & Hn)
       |(r & b & base & _ & _ & _ & Hn)]]];
    simpl in Hn; rewrite Hn in Hnext; simplify_eq.
  by destruct (WriteRequest _ _ _); simplify_eq.
Qed.

(** C1. With a template configured, the counter is 0 before the first
    pass; a call of [next] that returns an event adds exactly one to it; and
    in every state the run reaches, with [N] sent records in the log ([N] a
    value of [int]), the sent records carry the numbers 1, 2, ..., [N] in
    this order, the response records carry some of these numbers in
    increasing order, and the event that the [k]-th sent record points to
    carries the extension [sequence] = [k] when [AddSequence] is set. *)
Theorem sequence_numbers_exact (c : Config) (base : Event) (w : World) :
  template c base →
  let st := (Start (inr c) w).2 in
  let sent := sent_records (vented st) in
  (Z.of_nat (length sent) ≤ GoInt.max_int)%Z →
  (∀ p ps, sequence (gen (Start (inr c) (mkWorld p ps [])).2) = 0%Z)
  ∧ (∀ ctx now g h g' h' req l,
       (0 ≤ sequence g < GoInt.max_int)%Z →
       next ctx now g h = (g', h', Ok (req, Some l)) →
       sequence g' = (sequence g + 1)%Z)
  ∧ Sequence <$> sent = numbers (length sent)
  ∧ sublist (Sequence <$> response_records (vented st)) (numbers (length sent))
  ∧ (∀ k i l, sent !! k = Some i → ei_Event i = Some l →
       ∃ e, store st !! l = Some e
            ∧ (AddSequence c = true →
               ev_Extensions e !! "sequence" = Some (ExtInt (Z.of_nat (S k))))).
Proof.
  intros Ht st sent Hbound.
  destruct (Start_consistent c base w Ht) as (_ & n & Hcons).
  pose proof (consistent_length _ _ _ _ _ Hcons) as Hlen.
  fold st in Hcons, Hlen. fold sent in Hlen. rewrite Hlen in *.
  destruct Hcons as [Hs Hr He]. fold sent in Hs, He.
  rewrite wire_numbers in Hs, Hr by done.
  split_and!; try done.
  - intros p ps. apply Start_idle_counter.
  - intros ctx now g h g' h' req l Hrange Hnext.
    rewrite (next_increments _ _ _ _ _ _ _ _ Hnext).
    by apply succ_small.
  - intros k i l Hk Hl. destruct (He k i Hk) as (now & _ & Hev).
    eexists. split; [by apply Hev|]. intros Ha.
    rewrite built_sequence by done. do 2 f_equal.
    apply wrap_small. apply lookup_lt_Some in Hk. rewrite Hlen in Hk.
    unfold GoInt.is_int, GoInt.min_int, GoInt.max_int in *. lia.
Qed.

(** C7. No operation writes to the template: [next] leaves the pointer to
    it and the event behind it as they are and returns a pointer to another
    object, the clone; [responseInfo] leaves it as it is; and in every state
    a run reaches the template is the event that [init] parsed. *)
Theorem template_never_mutated :
  (∀ ctx now g h b base g' h' r,
     baseEvent g = Some b → h !! b = Some base →
     next ctx now g h = (g', h', r) →
     baseEvent g' = Some b ∧ h' !! b = Some base
     ∧ ∀ req l, r = Ok (req, Some l) → l ≠ b ∧ is_Some (h' !! l))
  ∧ (∀ g h now res event b base,
       h !! b = Some base →
       (responseInfo g h now res event).1 !! b = Some base)
  ∧ (∀ c base w,
       template c base →
       ∃ b, baseEvent (gen (Start (inr c) w).2) = Some b
            ∧ store (Start (inr c) w).2 !! b = Some base).
Proof.
  split_and!.
  - intros ctx now g h b base g' h' r Hb Hbase Hnext.
    destruct (next_frame _ _ _ _ _ _ _ Hnext) as (_ & Hb' & Hpre).
    split_and!; [congruence|by eapply prefix_lookup_Some|].
    intros req l ->.
    destruct (next_cases ctx now g h)
      as [(err & _ & Hn)|[(r & _ & _ & Hn)|[(b0 & _ & _ & Hn)
         |(r & b0 & base0 & _ & _ & _ & Hn)]]];
      simpl in Hn; rewrite Hn in Hnext; simplify_eq.
    destruct (WriteRequest _ _ _); simplify_eq.
    apply lookup_lt_Some in Hbase. split; [lia|].
    eexists. by apply list_lookup_middle.
  - intros g h now res event b base Hbase.
    eapply prefix_lookup_Some; [done|]. apply responseInfo_prefix.
  - intros c base w Ht.
    destruct (Start_consistent c base w Ht) as ((_ & Hb & Hbase) & _).
    eauto.
Qed.

End Counter.

(** Witness of C1: two passes of the example, the second exchange refused. *)
Lemma sequence_numbers_exact_witness :
  let st := (@Start sample (inr (example_config 1 2 ""))
                    (sample_world [smooth Tick; broken Tick])).2 in
  Sequence <$> sent_records (vented st) = [1; 2]%Z
  ∧ Sequence <$> response_records (vented st) `sublist_of` [1; 2]%Z.
Proof.
  assert (@template sample (example_config 1 2 "") sample_base) as Ht
    by (split; done).
  pose proof (@sequence_numbers_exact sample (example_config 1 2 "") sample_base
                (sample_world [smooth Tick; broken Tick]) Ht) as Hrun.
  simpl in Hrun. specialize (Hrun ltac:(vm_compute; congruence)).
  destruct Hrun as (_ & _ & Hs & Hr & _). split; [exact Hs|exact Hr].
Defined.

(** Witness of C7: the template after two passes of the example. *)
Lemma template_never_mutated_witness :
  ∃ b, baseEvent (gen (@Start sample (inr (example_config 1 2 ""))
                         (sample_world [smooth Tick; broken Tick])).2) = Some b
       ∧ store (@Start sample (inr (example_config 1 2 ""))
                  (sample_world [smooth Tick; broken Tick])).2 !! b
         = Some sample_base.
Proof.
  destruct (@template_never_mutated sample) as (_ & _ & Hrun).
  apply Hrun. split; done.
Defined.

(** ** Termination by count *)

Section Termination.
Context `{Externals}.

Lemma schedule_continue it st :
  hasNext (gen st) = true → woken it = Tick → schedule it st = Continue st.
Proof. intros Hn Hw. unfold schedule. by rewrite Hn, Hw. Qed.

Lemma schedule_last it st :
  hasNext (gen st) = false → schedule it st = Stop (Returned None) st.
Proof. intros Hn. unfold schedule. by rewrite Hn. Qed.

Lemma hasNext_below g :
  MaxMessages (cfg g) ≠ 0%Z →
  hasNext g = bool_decide (sequence g < MaxMessages (cfg g))%Z.
Proof. intros Hm. unfold hasNext. by rewrite decide_False. Qed.

(** A pass whose records the event log accepts ends in the scheduling
    decision, with one more sent record and at most one more response. *)
Lemma sending_accepted ctx it st g h req event :
  next ctx (now_build it) (gen st) (store st) = (g, h, Ok (req, event)) →
  accepted it →
  ∃ st1,
    sending ctx it st = schedule it st1
    ∧ gen st1 = g
    ∧ h `prefix_of` store st1
    ∧ length (sent_records (vented st1)) = S (length (sent_records (vented st)))
    ∧ length (response_records (vented st))
      ≤ length (response_records (vented st1))
      ≤ S (length (response_records (vented st))).
Proof.
  intros Hnext [Hvs Hvr].
  destruct (next_event_valid _ _ _ _ _ _ _ _ Hnext) as [id Hid].
  destruct (sending_shape _ _ _ _ _ _ _ _ Hnext Hid)
    as (info & tail & h' & (Hk & _) & Htail & Hlen & Hpre & _ & Hacc).
  destruct (Hacc Hvs) as (_ & _ & Hrun).
  assert (Forall (λ r, Kind r = EventResponse) tail) as Htail'.
  { eapply Forall_impl; [done|]. by intros ? [? _]. }
  eexists. split; [by apply Hrun|]. simpl.
  rewrite sent_records_snoc, response_records_snoc by done.
  rewrite !length_app. simpl. split_and!; try done; lia.
Qed.

Section Bounded.
Context (c : Config) (base : Event) (b : loc) (ctx : ctx_encoding)
        (req : Request).
Hypothesis request_ok : NewRequest (InputMethod c) (Sink c) = inr req.

(** An accepted pass of a run with a template, when the event of the pass
    can be encoded. *)
Lemma sending_encoded it st n :
  intact c b base st →
  sequence (gen st) = GoInt.wrap (Z.of_nat n) →
  encodable c base ctx req n it →
  accepted it →
  ∃ st1,
    sending ctx it st = schedule it st1
    ∧ intact c b base st1
    ∧ sequence (gen st1) = GoInt.wrap (Z.of_nat (S n))
    ∧ length (sent_records (vented st1)) = S (length (sent_records (vented st)))
    ∧ length (response_records (vented st))
      ≤ length (response_records (vented st1))
      ≤ S (length (response_records (vented st))).
Proof.
  intros (Hc & Hb & Hbase) Hseq [req' Hwrite] Hit.
  pose proof request_ok as Hreq. rewrite <- Hc in Hreq.
  pose proof (next_template ctx (now_build it) _ _ _ _ _ Hb Hbase Hreq) as Hnext.
  simpl in Hnext.
  set (g' := set_sequence (GoInt.wrap (sequence (gen st) + 1)) (gen st)) in *.
  assert (sequence g' = GoInt.wrap (Z.of_nat (S n))) as Hseq'.
  { simpl. rewrite Hseq, wrap_succ. f_equal. lia. }
  rewrite (stamped_built c base g' (now_build it) (S n)) in Hnext by done.
  rewrite Hwrite in Hnext.
  destruct (sending_accepted _ _ _ _ _ _ _ Hnext Hit)
    as (st1 & Hrun & Hg & Hpre & Hsent & Hresp).
  exists st1. split; [done|]. split; [|split; [by rewrite Hg|done]].
  unfold intact. rewrite Hg. split_and!; try done.
  eapply prefix_lookup_Some; [|done]. by apply lookup_app_l_Some.
Qed.

Hypothesis max_positive : (0 < MaxMessages c ≤ GoInt.max_int)%Z.

Lemma loop_count k : ∀ its st n,
  intact c b base st →
  sequence (gen st) = Z.of_nat n →
  (Z.of_nat n = MaxMessages c - Z.of_nat (S k))%Z →
  S k ≤ length its →
  Forall accepted (take (S k) its) →
  Forall ticking (take k its) →
  (∀ j it, j < S k → its !! j = Some it →
           encodable c base ctx req (n + j) it) →
  ∃ st',
    loop ctx its st = (Returned None, st')
    ∧ intact c b base st'
    ∧ sequence (gen st') = MaxMessages c
    ∧ length (sent_records (vented st'))
      = length (sent_records (vented st)) + S k
    ∧ length (response_records (vented st'))
      ≤ length (response_records (vented st)) + S k.
Proof.
  induction k as [|k IH]; intros its st n Hint Hseq Hn Hlen Hacc Htick Henc;
    (destruct its as [|it its]; [simpl in Hlen; lia|]);
    simpl in Hacc; apply Forall_cons in Hacc as [Hit Hacc];
    (assert (encodable c base ctx req n it) as Hfirst
      by (specialize (Henc 0 it ltac:(lia) eq_refl);
          by rewrite Nat.add_0_r in Henc));
    (assert (sequence (gen st) = GoInt.wrap (Z.of_nat n)) as Hseqw
      by (rewrite wrap_small; [done|];
          unfold GoInt.is_int, GoInt.min_int, GoInt.max_int in *; lia));
    destruct (sending_encoded it st n Hint Hseqw Hfirst Hit)
      as (st1 & Hrun & Hint1 & Hseq1 & Hsent & Hresp);
    rewrite wrap_small in Hseq1
      by (unfold GoInt.is_int, GoInt.min_int, GoInt.max_int in *; lia);
    (assert (cfg (gen st1) = c) as Hc1 by apply Hint1);
    simpl; rewrite Hrun.
  - rewrite schedule_last.
    + exists st1. split_and!; try done; lia.
    + rewrite hasNext_below by (rewrite Hc1; lia).
      apply bool_decide_eq_false. rewrite Hc1. lia.
  - simpl in Htick. apply Forall_cons in Htick as [Hw Htick].
    rewrite schedule_continue; [|
      rewrite hasNext_below by (rewrite Hc1; lia);
      apply bool_decide_eq_true; rewrite Hc1; lia | done].
    destruct (IH its st1 (S n)) as (st' & Hloop & Hint' & Hseq' & Hs' & Hr');
      try done; [lia|simpl in Hlen; lia| |].
    { intros j it' Hj Hit'.
      replace (S n + j) with (n + S j) by lia.
      apply Henc; [lia|done]. }
    exists st'. split_and!; try done; lia.
Qed.

End Bounded.

(** Without a template the counter never moves, so the count never ends
    the loop. *)
Lemma sending_no_template ctx it st :
  baseEvent (gen st) = None →
  gen (state_of (sending ctx it st)) = gen st.
Proof.
  intros Hb.
  destruct (next_cases ctx (now_build it) (gen st) (store st))
    as [(err & _ & Hn)|[(req & _ & _ & Hn)|[(b & Hb' & _)
       |(req & b & base & _ & Hb' & _)]]]; [| |congruence|congruence].
  { unfold sending. by rewrite Hn. }
  destruct (next_event_valid _ _ _ _ _ _ _ _ Hn) as [id Hid].
  destruct (sending_shape _ _ _ _ _ _ _ _ Hn Hid)
    as (info & tail & h' & _ & _ & _ & _ & Hrun & _).
  unfold schedule in Hrun.
  destruct Hrun as [Hrun|[err Hrun]]; rewrite Hrun; by repeat case_match.
Qed.

Lemma loop_no_template_gen ctx its st :
  baseEvent (gen st) = None → gen (loop ctx its st).2 = gen st.
Proof.
  revert st. induction its as [|it its IH]; intros st Hb; [done|].
  simpl. pose proof (sending_no_template ctx it st Hb) as Hstep.
  destruct (sending ctx it st) as [st'|s st']; simpl in *; [|done].
  rewrite IH; [done|]. by rewrite Hstep.
Qed.

Lemma loop_no_template_running ctx its : ∀ st,
  baseEvent (gen st) = None →
  hasNext (gen st) = true →
  (∃ req, NewRequest (InputMethod (cfg (gen st))) (Sink (cfg (gen st))) = inr req) →
  Forall accepted its → Forall ticking its →
  ∃ st', loop ctx its st = (Running, st')
         ∧ length (sent_records (vented st'))
           = length (sent_records (vented st)) + length its.
Proof.
  induction its as [|it its IH]; intros st Hb Hnext [req Hreq] Hacc Htick.
  { exists st. simpl. split; [done|lia]. }
  apply Forall_cons in Hacc as [Hit Hacc].
  apply Forall_cons in Htick as [Hw Htick].
  pose proof (next_no_template ctx (now_build it) _ (store st) _ Hb Hreq) as Hn.
  destruct (sending_accepted _ _ _ _ _ _ _ Hn Hit)
    as (st1 & Hrun & Hg & _ & Hsent & _).
  simpl. rewrite Hrun, schedule_continue by (by rewrite ?Hg).
  destruct (IH st1) as (st' & Hloop & Hcount); try done; try by rewrite Hg.
  { exists req. by rewrite Hg. }
  exists st'. split; [done|]. simpl. lia.
Qed.

End Termination.

(** ** Runs that end by count, and runs that do not *)

Section Runs.
Context `{Externals}.

Lemma probing_cfg g1 g2 w : cfg g1 = cfg g2 → probing g1 w = probing g2 w.
Proof.
  intros Hc. unfold probing, probe_condition. rewrite Hc.
  destruct (ProbeSink (cfg g2)); [|done]. f_equal.
Qed.

(** Once [init] and the probing are through, [Start] is the loop. *)
Lemma Start_steady c w env h ctx :
  init (mkGenerator c None 0) [] = (env, h, None) →
  probing (mkGenerator c None 0) w = PollOk →
  encoding_of (EventEncoding c) = Some ctx →
  (0 < seconds (Period c))%Z →
  cfg env = c →
  Start (inr c) w = loop ctx (iterations w) (mkState env h []).
Proof.
  intros Hinit Hprobe Henc Hperiod Hc. unfold Start, steady. rewrite Hinit.
  rewrite (probing_cfg env (mkGenerator c None 0)), Hprobe by done.
  rewrite Hc, Henc. by rewrite decide_False by lia.
Qed.

Lemma init_no_template c :
  no_template c →
  ∃ e, init (mkGenerator c None 0) [] = (mkGenerator c None 0, [], e).
Proof.
  intros Hno. unfold init. simpl.
  destruct (decide (InputEvent c ≠ "")) as [Hne|He].
  - destruct Hno as [?|Hparse]; [done|]. rewrite Hparse. simpl.
    repeat case_match; eauto.
  - repeat case_match; eauto.
Qed.


(** C3. Without a template, [next] never changes the counter; in every
    state a run reaches the counter is 0 and, for MaxMessages > 0, [hasNext]
    answers true; so as long as nothing else ends the run (the event log
    accepts the records and every wait ends with a tick) the loop is still
    running after any number of passes, one sent record for each. *)
Theorem no_template_never_counts (c : Config) (w : World) :
  no_template c →
  (0 < MaxMessages c)%Z →
  (∀ ctx now g h g' h' r,
     baseEvent g = None → next ctx now g h = (g', h', r) →
     sequence g' = sequence g ∧ baseEvent g' = None)
  ∧ sequence (gen (Start (inr c) w).2) = 0%Z
  ∧ hasNext (gen (Start (inr c) w).2) = true
  ∧ (∀ ctx,
       (init (mkGenerator c None 0) []).2 = None →
       probing (mkGenerator c None 0) w = PollOk →
       encoding_of (EventEncoding c) = Some ctx →
       (0 < seconds (Period c))%Z →
       (∃ req, NewRequest (InputMethod c) (Sink c) = inr req) →
       Forall accepted (iterations w) →
       Forall ticking (iterations w) →
       (Start (inr c) w).1 = Running
       ∧ length (sent_records (vented (Start (inr c) w).2))
         = length (iterations w)).
Proof.
  intros Hno Hmax.
  destruct (init_no_template c Hno) as [e Hinit].
  assert (gen (Start (inr c) w).2 = mkGenerator c None 0) as Hgen.
  { unfold Start, steady. rewrite Hinit.
    repeat case_match; simpl; try done. by apply loop_no_template_gen. }
  assert (hasNext (mkGenerator c None 0) = true) as Hnext.
  { rewrite hasNext_below by (simpl; lia). apply bool_decide_eq_true. simpl. lia. }
  split_and!.
  - intros ctx now g h g' h' r Hb Hn.
    destruct (next_cases ctx now g h)
      as [(err & _ & Hc)|[(req & _ & _ & Hc)|[(b & Hb' & _)
         |(req & b & base & _ & Hb' & _)]]]; [| |congruence|congruence];
      rewrite Hc in Hn; by simplify_eq.
  - by rewrite Hgen.
  - by rewrite Hgen.
  - intros ctx Hok Hprobe Henc Hperiod Hreq Hacc Htick.
    rewrite Hinit in Hok. simpl in Hok. subst e.
    rewrite (Start_steady c w _ _ ctx Hinit) by done.
    destruct (loop_no_template_running ctx (iterations w)
                (mkState (mkGenerator c None 0) [] []))
      as (st' & Hloop & Hcount); try done.
    rewrite Hloop. done.
Qed.

End Runs.



(** Witness of C3: a sender with a static body only and MaxMessages = 1 is
    still running after three passes. *)
Lemma no_template_never_counts_witness :
  (@Start sample (inr (body_only_config 1))
          (sample_world [smooth Tick; broken Tick; smooth Tick])).1 = Running
  ∧ length (sent_records (vented
      (@Start sample (inr (body_only_config 1))
              (sample_world [smooth Tick; broken Tick; smooth Tick])).2)) = 3
  ∧ sequence (gen
      (@Start sample (inr (body_only_config 1))
              (sample_world [smooth Tick; broken Tick; smooth Tick])).2) = 0%Z.
Proof.
  destruct (@no_template_never_counts sample (body_only_config 1)
              (sample_world [smooth Tick; broken Tick; smooth Tick]))
    as (_ & Hseq & _ & Hrun).
  - by left.
  - done.
  - destruct (Hrun WithEncodingStructured) as [Hs Hn]; try reflexivity.
    + eexists. reflexivity.
    + repeat constructor.
    + repeat constructor.
    + split_and!; done.
Defined.

(** ** The example of the spec *)

Section Example.
Context `{Externals}.

(** The example of the spec with a positive period in place of 0.  For a
    configuration with a template whose id is "a" and whose type is "t",
    AddSequence set, IncrementalId not set, MaxMessages = 2 and no probing:
    if the request can be created, the events of the two passes can be
    encoded, the event log accepts the records and the first wait ends with
    a tick, then [Start] returns nil with exactly two sent records, numbered
    1 and 2, both with sent identifier "a"; the event a sent record points
    to has id "a", type "t" and the extension [sequence] equal to the number
    of the record. *)
Lemma example_two_events (c : Config) (base : Event) (ctx : ctx_encoding)
    (req : Request) (w : World) (it1 it2 : iteration) (rest : list iteration) :
  template c base →
  ID base = "a" → ev_Type base = "t" →
  AddSequence c = true → IncrementalId c = false →
  MaxMessages c = 2%Z →
  (0 < seconds (Period c))%Z →
  ProbeSink c = false →
  encoding_of (EventEncoding c) = Some ctx →
  NewRequest (InputMethod c) (Sink c) = inr req →
  iterations w = it1 :: it2 :: rest →
  encodable c base ctx req 0 it1 → encodable c base ctx req 1 it2 →
  accepted it1 → accepted it2 → woken it1 = Tick →
  ∃ st s1 s2,
    Start (inr c) w = (Returned None, st)
    ∧ sent_records (vented st) = [s1; s2]
    ∧ Sequence s1 = 1%Z ∧ Sequence s2 = 2%Z
    ∧ SentId s1 = "a" ∧ SentId s2 = "a"
    ∧ ∀ k s l,
        [s1; s2] !! k = Some s → ei_Event s = Some l →
        ∃ e, store st !! l = Some e
             ∧ ID e = "a" ∧ ev_Type e = "t"
             ∧ ev_Extensions e !! "sequence" = Some (ExtInt (Z.of_nat (S k))).
Proof.
  intros Ht Hid Hty Hadd Hinc Hmax Hperiod Hprobe Henc Hreq Hits Hw1 Hw2
         Hacc1 Hacc2 Htick.
  assert (probing (mkGenerator c None 0) w = PollOk) as Hpoll.
  { unfold probing. simpl. by rewrite Hprobe. }
  pose proof (Start_consistent c base w Ht) as (_ & n & Hcons).
  rewrite (Start_steady c w _ _ ctx (init_template c base Ht)) in * by done.
  destruct (loop_count c base 0 ctx req Hreq
              ltac:(rewrite Hmax; done) 1 (iterations w)
              (mkState (mkGenerator c (Some 0) 0) [base] []) 0)
    as (st & Hloop & _ & _ & Hs & _); try done.
  { simpl. lia. }
  { rewrite Hits. simpl. lia. }
  { rewrite Hits. cbn. constructor; [done|]. constructor; [done|]. constructor. }
  { rewrite Hits. cbn. constructor; [done|]. constructor. }
  { rewrite Hits. intros j it Hj Hit.
    destruct j as [|[|j]]; simpl in Hit; [| |lia]; by simplify_eq. }
  rewrite Hloop in *. simpl in Hs, Hcons.
  pose proof (consistent_length _ _ _ _ _ Hcons) as Hn.
  rewrite Hs in Hn. subst n. destruct Hcons as [Hseq _ Hev].
  destruct (sent_records (vented st)) as [|s1 [|s2 [|s3 l]]] eqn:Hsent;
    try done.
  exists st, s1, s2. simpl in Hseq.
  assert (Sequence s1 = 1%Z ∧ Sequence s2 = 2%Z) as [Hq1 Hq2].
  { injection Hseq as -> ->. done. }
  destruct (Hev 0 s1 eq_refl) as (now1 & Hid1 & Hev1).
  destruct (Hev 1 s2 eq_refl) as (now2 & Hid2 & Hev2).
  rewrite built_id_unchanged in Hid1, Hid2 by done.
  split_and!; try done; try congruence.
  intros k s l Hk Hl.
  destruct k as [|[|k]]; simpl in Hk; simplify_eq.
  - eexists. split; [by apply Hev1|].
    rewrite built_id_unchanged, built_type, built_sequence by done. done.
  - eexists. split; [by apply Hev2|].
    rewrite built_id_unchanged, built_type, built_sequence by done. done.
Qed.

End Example.

(** The example with a period of one second; the first exchange is
    answered, the second is refused. *)
Lemma example_two_events_witness :
  ∃ st s1 s2,
    @Start sample (inr (example_config 1 2 ""))
           (sample_world [smooth Tick; broken Tick])
    = (Returned None, st)
    ∧ sent_records (vented st) = [s1; s2]
    ∧ Sequence s1 = 1%Z ∧ Sequence s2 = 2%Z
    ∧ SentId s1 = "a" ∧ SentId s2 = "a"
    ∧ ∀ k s l,
        [s1; s2] !! k = Some s → ei_Event s = Some l →
        ∃ e, store st !! l = Some e
             ∧ ID e = "a" ∧ ev_Type e = "t"
             ∧ ev_Extensions e !! "sequence" = Some (ExtInt (Z.of_nat (S k))).
Proof.
  apply (@example_two_events sample (example_config 1 2 "") sample_base
           WithEncodingBinary (mkRequest "POST" "http://X" ∅ None)
           (sample_world [smooth Tick; broken Tick])
           (smooth Tick) (broken Tick) []); try reflexivity.
  - split; done.
  - eexists. reflexivity.
  - eexists. reflexivity.
  - split; reflexivity.
  - split; reflexivity.
Defined.

(** C5. With the configuration of the example (period 0) [Start] never
    reaches the loop: [time.NewTicker] is called with a duration of 0 and
    panics, whatever the world does, and nothing reaches the log.  The
    start-up delay next to it is guarded ([if delay > 0]); the period is
    not. *)
Theorem example_period_zero_panics (w : World) :
  @Start sample (inr (example_config 0 2 "")) w
  = (Panicked "non-positive interval for NewTicker",
     mkState (mkGenerator (example_config 0 2 "") (Some 0) 0) [sample_base] []).
Proof. reflexivity. Qed.

(** ** The order of the records *)

Section Order.
Context `{Externals}.

Lemma Start_ordered environ w :
  ordered false (vented (Start environ w).2) = true.
Proof.
  unfold Start, steady. repeat case_match; simpl; try done.
  by apply loop_ordered.
Qed.

Lemma state_of_schedule it st : state_of (schedule it st) = st.
Proof. unfold schedule. by repeat case_match. Qed.

(** C6, as the code has it.  In the log of every run each response record
    directly follows a sent record.  A pass in which [next] returns a
    request hands over the sent record first and after it at most one
    response record.  When the event log accepts the sent record, the
    response record is there if and only if the exchange returned no error,
    and after an exchange that returned an error the pass goes on to the
    termination check and the wait, with the sent record as its only
    record. *)
Theorem sent_precedes_response :
  (∀ environ w, ordered false (vented (Start environ w).2) = true)
  ∧ (∀ ctx it st g h req event,
       next ctx (now_build it) (gen st) (store st) = (g, h, Ok (req, event)) →
       ∃ info tail,
         vented (state_of (sending ctx it st)) = vented st ++ info :: tail
         ∧ Kind info = EventSent
         ∧ Forall (λ r, Kind r = EventResponse) tail
         ∧ length tail ≤ 1
         ∧ (vent_sent it = None →
            (tail ≠ [] ↔ ∃ res, exchange it = inr res)
            ∧ ((∃ err, exchange it = inl err) →
               sending ctx it st
               = schedule it (mkState g h (vented st ++ [info]))))).
Proof.
  split; [apply Start_ordered|].
  intros ctx it st g h req event Hnext.
  destruct (next_event_valid _ _ _ _ _ _ _ _ Hnext) as [id Hid].
  destruct (sending_shape _ _ _ _ _ _ _ _ Hnext Hid)
    as (info & tail & h' & (Hk & _) & Htail & Hlen & Hpre & Hrun & Hacc).
  exists info, tail. split_and!; try done.
  - destruct Hrun as [Hrun|[err Hrun]]; rewrite Hrun; [|done].
    by rewrite state_of_schedule.
  - eapply Forall_impl; [done|]. by intros ? [? _].
  - intros Hvent. destruct (Hacc Hvent) as (Hiff & Herr & _).
    split; [done|]. intros [err Hex].
    assert (tail = []) as ->.
    { destruct tail; [done|]. destruct Hiff as [Hiff _].
      destruct Hiff as [res Hres]; [done|congruence]. }
    unfold sending, report_response. rewrite Hnext.
    destruct (sentInfo g h (now_sent it) event req _) as [info'|] eqn:Hsent.
    2:{ unfold sentInfo in Hsent. rewrite Hid in Hsent. simpl in Hsent.
        by destruct (exchange it). }
    rewrite Hvent. simpl. rewrite Hex.
    rewrite Herr in Hrun by eauto.
    unfold sending, report_response in Herr. rewrite Hnext, Hsent, Hvent in Herr.
    simpl in Herr. rewrite Hex in Herr.
    specialize (Herr ltac:(eauto)).
    assert (info' = info) as ->; [|done].
    apply (f_equal state_of) in Herr. rewrite !state_of_schedule in Herr.
    apply (f_equal vented) in Herr. simpl in Herr.
    by apply app_inv_head in Herr; simplify_eq.
Qed.

End Order.

(** Witness of C6 as the code has it: a refused exchange in the first pass
    of the example. *)
Lemma sent_precedes_response_witness :
  ∃ info tail,
    vented (state_of (@sending sample WithEncodingBinary (broken Tick)
                        (mkState (mkGenerator (example_config 1 2 "") (Some 0) 0)
                                 [sample_base] [])))
    = [] ++ info :: tail
    ∧ Kind info = EventSent
    ∧ tail = [].
Proof.
  destruct (@sent_precedes_response sample) as [_ Hpass].
  edestruct (Hpass WithEncodingBinary (broken Tick)
               (mkState (mkGenerator (example_config 1 2 "") (Some 0) 0)
                        [sample_base] []))
    as (info & tail & Hlog & Hk & _ & _ & Hacc).
  { vm_compute. reflexivity. }
  exists info, tail. split_and!; try done.
  destruct (Hacc eq_refl) as [Hiff _].
  destruct tail as [|r tail]; [done|].
  destruct Hiff as [[res Hres] _]; [done|]. discriminate Hres.
Defined.

(** C6 as stated fails: the exchange is answered, the event log refuses the
    sent record, and the run returns without a response record. *)
Lemma answered_without_response :
  (∃ res, exchange rejected = inr res)
  ∧ (@Start sample (inr (example_config 1 2 "")) (sample_world [rejected])).1
    = Returned (Some (CannotForward (mkError "log full")))
  ∧ response_records
      (vented (@Start sample (inr (example_config 1 2 ""))
                      (sample_world [rejected])).2) = [].
Proof. split; [by eexists|]. vm_compute. done. Qed.

(** ** Probing *)

Section Probing.
Context `{Externals}.

Lemma init_cfg g h g' h' e : init g h = (g', h', e) → cfg g' = cfg g.
Proof.
  unfold init. repeat case_match; intros; simplify_eq; done.
Qed.

Lemma poll_all_failed timeout cond attempts :
  timeout ≠ 0%Z →
  Forall (λ p, cond p = (false, None)) attempts →
  poll timeout cond attempts = PollErr ErrWaitTimeout.
Proof.
  intros Ht. induction 1 as [|p attempts Hp _ IH]; simpl.
  - by rewrite decide_False.
  - by rewrite Hp.
Qed.

Lemma poll_answered timeout cond failed p later :
  Forall (λ p, cond p = (false, None)) failed →
  cond p = (true, None) →
  poll timeout cond (failed ++ p :: later) = PollOk.
Proof.
  intros Hf Hp. induction Hf as [|q failed Hq _ IH]; simpl.
  - by rewrite Hp.
  - by rewrite Hq.
Qed.

(** The probing with a timeout that is not zero: when every probe fails in
    the transport until the timeout has passed, [Start] returns the probing
    error with the sink and the timeout in it, and the log is empty; the
    cause is the timeout of the polling, unless the probe request could not
    even be created.  When a probe is answered, with whatever status, the
    probing is over and [Start] goes on to the sending. *)
Lemma probe_gating (c : Config) (w : World) :
  ProbeSink c = true →
  (init (mkGenerator c None 0) []).2 = None →
  let timeout := seconds (ProbeSinkTimeout c) in
  (timeout ≠ 0%Z →
   Forall (λ p, ∃ err, p = ProbeFailed err) (probe_first w :: probe_rest w) →
   ∃ cause st,
     Start (inr c) w
     = (Returned (Some (ProbingFailed (Sink c) timeout cause)), st)
     ∧ vented st = []
     ∧ ((∃ req, NewRequest "HEAD" (Sink c) = inr req) → cause = ErrWaitTimeout))
  ∧ (∀ failed status later,
       probe_first w :: probe_rest w
       = (ProbeFailed <$> failed) ++ ProbeAnswered status :: later →
       (∃ req, NewRequest "HEAD" (Sink c) = inr req) →
       probing (mkGenerator c None 0) w = PollOk
       ∧ ∃ env h, init (mkGenerator c None 0) [] = (env, h, None)
                  ∧ Start (inr c) w = steady env h w).
Proof.
  intros Hprobe Hinit timeout.
  destruct (init (mkGenerator c None 0) []) as [[env h] e] eqn:Hi.
  simpl in Hinit. subst e.
  pose proof (init_cfg _ _ _ _ _ Hi) as Hc. simpl in Hc.
  assert (probing env w
          = poll timeout (probe_condition (mkGenerator c None 0))
                 (probe_first w :: probe_rest w)) as Hpoll.
  { rewrite (probing_cfg env (mkGenerator c None 0)) by done.
    unfold probing. simpl. by rewrite Hprobe. }
  split.
  - intros Ht Hall. unfold Start. rewrite Hi, Hpoll, Hc.
    destruct (NewRequest "HEAD" (Sink c)) as [err|req] eqn:Hreq.
    + exists err. eexists. simpl. unfold probe_condition. simpl. rewrite Hreq.
      split_and!; try done. by intros [? ?].
    + rewrite poll_all_failed; [by eauto| done |].
      eapply Forall_impl; [done|]. intros p [err ->].
      unfold probe_condition. simpl. by rewrite Hreq.
  - intros failed status later Hscript [req Hreq].
    assert (poll timeout (probe_condition (mkGenerator c None 0))
                 (probe_first w :: probe_rest w) = PollOk) as Hok.
    { rewrite Hscript. apply poll_answered.
      - apply Forall_fmap, Forall_true. intros err.
        unfold probe_condition. simpl. by rewrite Hreq.
      - unfold probe_condition. simpl. by rewrite Hreq. }
    split.
    + unfold probing. simpl. by rewrite Hprobe.
    + exists env, h. split; [done|]. unfold Start. by rewrite Hi, Hpoll, Hok.
Qed.

Lemma poll_pending cond attempts :
  Forall (λ p, cond p = (false, None)) attempts →
  poll 0%Z cond attempts = PollPending.
Proof.
  induction 1 as [|p attempts Hp _ IH]; simpl; [done|]. by rewrite Hp.
Qed.

(** C10. With probing on and a probing timeout of zero (PROBE_SINK_TIMEOUT
    is 0, or its product with a second wraps to 0) there is no timeout: as
    long as every probe fails in the transport, [Start] goes on probing,
    after any number of probes; it does not return the probing error. *)
Theorem probing_without_timeout (c : Config) (w : World) :
  ProbeSink c = true →
  (init (mkGenerator c None 0) []).2 = None →
  seconds (ProbeSinkTimeout c) = 0%Z →
  (∃ req, NewRequest "HEAD" (Sink c) = inr req) →
  Forall (λ p, ∃ err, p = ProbeFailed err) (probe_first w :: probe_rest w) →
  (Start (inr c) w).1 = Running ∧ vented (Start (inr c) w).2 = [].
Proof.
  intros Hprobe Hinit Hzero [req Hreq] Hall.
  destruct (init (mkGenerator c None 0) []) as [[env h] e] eqn:Hi.
  simpl in Hinit. subst e.
  pose proof (init_cfg _ _ _ _ _ Hi) as Hc. simpl in Hc.
  assert (probing (mkGenerator c None 0) w = PollPending) as Hpoll.
  { unfold probing, PollImmediate. cbn [cfg]. rewrite Hprobe, Hzero.
    apply poll_pending.
    eapply Forall_impl; [done|]. intros p [err ->].
    unfold probe_condition. cbn [cfg]. by rewrite Hreq. }
  unfold Start. rewrite Hi.
  by rewrite (probing_cfg env (mkGenerator c None 0)), Hpoll.
Qed.

End Probing.

(** Witness of C10: with a timeout of 0, four refused probes and [Start]
    is still probing. *)
Lemma probing_without_timeout_witness :
  (@Start sample (inr endless_probing_config)
          (probing_world (ProbeFailed refused)
                         [ProbeFailed refused; ProbeFailed refused;
                          ProbeFailed refused]
                         [smooth Tick; smooth Tick])).1 = Running
  ∧ vented (@Start sample (inr endless_probing_config)
                   (probing_world (ProbeFailed refused)
                                  [ProbeFailed refused; ProbeFailed refused;
                                   ProbeFailed refused]
                                  [smooth Tick; smooth Tick])).2 = [].
Proof.
  apply (@probing_without_timeout sample endless_probing_config);
    try reflexivity.
  - eexists. reflexivity.
  - repeat (constructor; [by eexists|]). constructor.
Defined.

(** Three probes that are refused within a timeout of a minute, and a
    probe that is answered with status 503 after one that is refused. *)
Lemma probe_gating_witness :
  (∃ cause st,
     @Start sample (inr (probing_config 1 2))
            (probing_world (ProbeFailed refused)
                           [ProbeFailed refused; ProbeFailed refused]
                           [smooth Tick; smooth Tick])
     = (Returned (Some (ProbingFailed "http://X" 60000000000%Z cause)), st)
     ∧ vented st = []
     ∧ cause = ErrWaitTimeout)
  ∧ @probing sample (mkGenerator (probing_config 1 2) None 0)
             (probing_world (ProbeFailed refused) [ProbeAnswered 503]
                            [smooth Tick; smooth Tick]) = PollOk.
Proof.
  split.
  - destruct (@probe_gating sample (probing_config 1 2)
                (probing_world (ProbeFailed refused)
                               [ProbeFailed refused; ProbeFailed refused]
                               [smooth Tick; smooth Tick]) eq_refl eq_refl)
      as [Hfail _].
    destruct Hfail as (cause & st & Hrun & Hlog & Hcause).
    + vm_compute. congruence.
    + repeat (constructor; [by eexists|]). constructor.
    + exists cause, st. split_and!; try done. apply Hcause. by eexists.
  - destruct (@probe_gating sample (probing_config 1 2)
                (probing_world (ProbeFailed refused) [ProbeAnswered 503]
                               [smooth Tick; smooth Tick]) eq_refl eq_refl)
      as [_ Hok].
    destruct (Hok [refused] 503%Z [] eq_refl) as [Hpoll _]; [by eexists|].
    exact Hpoll.
Defined.

(** * Further properties of the sender *)

(** ** Errors before the loop *)

Section Configuration.
Context `{Externals}.

Lemma sending_outcome ctx it st :
  match sending ctx it st with
  | Continue _ => True
  | Stop s _ => loop_outcome s
  end.
Proof.
  unfold sending, report_response, schedule.
  repeat case_match; simplify_eq; done.
Qed.

Lemma loop_loop_outcome ctx its st : loop_outcome (loop ctx its st).1.
Proof.
  revert st. induction its as [|it its IH]; intros st; [done|].
  simpl. pose proof (sending_outcome ctx it st) as Hs.
  destruct (sending ctx it st); [apply IH|done].
Qed.

(** X1. [Start] returns "input values not provided" exactly when the
    input event, the static body and the static headers are all empty; it
    then returns before any probe, with nothing in the log. *)
Theorem nothing_to_send (c : Config) (w : World) :
  ((Start (inr c) w).1 = Returned (Some (InitFailed InputValuesNotProvided))
   ↔ InputEvent c = "" ∧ InputBody c = "" ∧ size (InputHeaders c) = 0)
  ∧ (InputEvent c = "" → InputBody c = "" → size (InputHeaders c) = 0 →
     Start (inr c) w
     = (Returned (Some (InitFailed InputValuesNotProvided)),
        mkState (mkGenerator c None 0) [] [])).
Proof.
  assert (InputEvent c = "" → InputBody c = "" → size (InputHeaders c) = 0 →
          Start (inr c) w
          = (Returned (Some (InitFailed InputValuesNotProvided)),
             mkState (mkGenerator c None 0) [] [])) as Hempty.
  { intros He Hb Hh. unfold Start, init. simpl.
    rewrite decide_False by (by intros ?).
    by rewrite decide_True. }
  split; [|done]. split.
  - intros Hrun. unfold Start, steady in Hrun.
    destruct (init (mkGenerator c None 0) []) as [[env h] e] eqn:Hinit.
    pose proof (init_cfg _ _ _ _ _ Hinit) as Hc. simpl in Hc.
    destruct e as [e|].
    + simpl in Hrun. simplify_eq. unfold init in Hinit. simpl in Hinit.
      repeat case_match; simplify_eq; done.
    + pose proof (loop_loop_outcome) as Hloop.
      repeat case_match; simpl in Hrun; try done.
      match type of Hrun with
      | (loop ?ctx ?its ?st).1 = _ => specialize (Hloop ctx its st)
      end.
      by rewrite Hrun in Hloop.
  - intros (He & Hb & Hh). by rewrite Hempty.
Qed.

(** X2. An input event that cannot be parsed ends [Start] with the
    unmarshalling error, whatever else is configured: no probe is made and
    nothing reaches the log. *)
Theorem unparsable_event (c : Config) (w : World) (err : error) :
  InputEvent c ≠ "" →
  Unmarshal (InputEvent c) = inl err →
  Start (inr c) w
  = (Returned (Some (InitFailed (UnmarshalFailed err))),
     mkState (mkGenerator c None 0) [] []).
Proof.
  intros Hne Hparse. unfold Start, init. simpl.
  by rewrite decide_True, Hparse.
Qed.

(** X3. The encoding is looked at only after the probing: with an
    encoding other than "binary" and "structured", [Start] returns the
    error that names the encoding once the probing is through, the error of
    the probing when that fails, and in both cases nothing reaches the
    log. *)
Theorem unsupported_encoding (c : Config) (w : World) :
  EventEncoding c ≠ "binary" → EventEncoding c ≠ "structured" →
  (init (mkGenerator c None 0) []).2 = None →
  vented (Start (inr c) w).2 = []
  ∧ match probing (mkGenerator c None 0) w with
    | PollOk =>
      (Start (inr c) w).1
      = Returned (Some (UnsupportedEncoding (EventEncoding c)))
    | PollErr err =>
      (Start (inr c) w).1
      = Returned (Some (ProbingFailed (Sink c)
                          (seconds (ProbeSinkTimeout c)) err))
    | PollPending => (Start (inr c) w).1 = Running
    end.
Proof.
  intros Hb Hs Hinit.
  destruct (init (mkGenerator c None 0) []) as [[env h] e] eqn:Hi.
  simpl in Hinit. subst e.
  pose proof (init_cfg _ _ _ _ _ Hi) as Hc. simpl in Hc.
  unfold Start, steady. rewrite Hi.
  rewrite (probing_cfg env (mkGenerator c None 0)) by done.
  assert (encoding_of (EventEncoding c) = None) as Henc.
  { unfold encoding_of. by rewrite !decide_False. }
  rewrite Hc, Henc. by destruct (probing _ w).
Qed.

(** X4. When the probe request cannot be created from the sink address,
    the probing fails at the first attempt with that error, whatever the
    sink would have answered. *)
Theorem probe_request_error (c : Config) (w : World) (err : error) :
  ProbeSink c = true →
  (init (mkGenerator c None 0) []).2 = None →
  NewRequest "HEAD" (Sink c) = inl err →
  ∃ st,
    Start (inr c) w
    = (Returned (Some (ProbingFailed (Sink c)
                         (seconds (ProbeSinkTimeout c)) err)), st)
    ∧ vented st = [].
Proof.
  intros Hprobe Hinit Hreq.
  destruct (init (mkGenerator c None 0) []) as [[env h] e] eqn:Hi.
  simpl in Hinit. subst e.
  pose proof (init_cfg _ _ _ _ _ Hi) as Hc. simpl in Hc.
  unfold Start. rewrite Hi.
  rewrite (probing_cfg env (mkGenerator c None 0)) by done.
  unfold probing, PollImmediate, probe_condition. simpl.
  rewrite Hprobe, Hreq, Hc. eauto.
Qed.

End Configuration.

(** Witness of X1: the sender with nothing to send. *)
Lemma nothing_to_send_witness :
  @Start sample (inr empty_config) (answered_world [smooth Tick])
  = (Returned (Some (InitFailed InputValuesNotProvided)),
     mkState (mkGenerator empty_config None 0) [] []).
Proof.
  destruct (@nothing_to_send sample empty_config (answered_world [smooth Tick]))
    as [_ Hrun].
  apply Hrun; reflexivity.
Defined.

(** Witness of X2: an input event that breaks off. *)
Lemma unparsable_event_witness :
  @Start sample (inr garbled_config) (answered_world [smooth Tick])
  = (Returned (Some (InitFailed (UnmarshalFailed (mkError "invalid character")))),
     mkState (mkGenerator garbled_config None 0) [] []).
Proof.
  apply (@unparsable_event sample garbled_config); [done|reflexivity].
Defined.

(** Witness of X3: the encoding "Binary" with a sink that answers. *)
Lemma unsupported_encoding_witness :
  vented (@Start picky (inr (full_config "http://X" "Binary" 1))
                 (answered_world [smooth Tick])).2 = []
  ∧ (@Start picky (inr (full_config "http://X" "Binary" 1))
            (answered_world [smooth Tick])).1
    = Returned (Some (UnsupportedEncoding "Binary")).
Proof.
  destruct (@unsupported_encoding picky (full_config "http://X" "Binary" 1)
              (answered_world [smooth Tick])) as [Hlog Hrun]; try done.
Defined.

(** Witness of X4: a sink address without a scheme. *)
Lemma probe_request_error_witness :
  ∃ st,
    @Start picky (inr (full_config "::" "binary" 1))
           (answered_world [smooth Tick])
    = (Returned (Some (ProbingFailed "::" 60000000000%Z
                         (mkError "missing protocol scheme"))), st)
    ∧ vented st = [].
Proof.
  apply (@probe_request_error picky (full_config "::" "binary" 1)
           (answered_world [smooth Tick])); reflexivity.
Defined.

(** ** How the loop ends, and when it does not *)

Section Endings.
Context `{Externals}.

Lemma state_eta st : mkState (gen st) (store st) (vented st) = st.
Proof. by destruct st. Qed.

Lemma init_cases c env h :
  init (mkGenerator c None 0) [] = (env, h, None) →
  (env = mkGenerator c None 0 ∧ h = [])
  ∨ ∃ base, template c base ∧ env = mkGenerator c (Some 0) 0 ∧ h = [base].
Proof.
  unfold init, template. simpl.
  repeat case_match; intros; simplify_eq; eauto.
  right. eexists. split_and!; done.
Qed.

Section Unbounded.
Context (c : Config) (base : Event) (b : loc) (ctx : ctx_encoding)
        (req : Request).
Hypothesis request_ok : NewRequest (InputMethod c) (Sink c) = inr req.
Hypothesis no_maximum : MaxMessages c = 0%Z.

Lemma loop_unbounded its : ∀ st n,
  intact c b base st →
  sequence (gen st) = GoInt.wrap (Z.of_nat n) →
  Forall accepted its → Forall ticking its →
  (∀ j it, its !! j = Some it → encodable c base ctx req (n + j) it) →
  ∃ st', loop ctx its st = (Running, st')
         ∧ length (sent_records (vented st'))
           = length (sent_records (vented st)) + length its.
Proof.
  induction its as [|it its IH]; intros st n Hint Hseq Hacc Htick Henc.
  { exists st. simpl. split; [done|lia]. }
  apply Forall_cons in Hacc as [Hit Hacc].
  apply Forall_cons in Htick as [Hw Htick].
  assert (encodable c base ctx req n it) as Hfirst.
  { specialize (Henc 0 it eq_refl). by rewrite Nat.add_0_r in Henc. }
  destruct (sending_encoded c base b ctx req request_ok it st n Hint Hseq Hfirst Hit)
    as (st1 & Hrun & Hint1 & Hseq1 & Hsent & _).
  assert (cfg (gen st1) = c) as Hc1 by apply Hint1.
  simpl. rewrite Hrun, schedule_continue; [|
    unfold hasNext; rewrite Hc1, no_maximum; by rewrite decide_True|done].
  destruct (IH st1 (S n)) as (st' & Hloop & Hcount); try done.
  { intros j it' Hit'. replace (S n + j) with (n + S j) by lia.
    by apply Henc. }
  exists st'. split; [done|]. simpl. lia.
Qed.

End Unbounded.

(** X5. With MaxMessages = 0 the count never ends the loop, with or
    without a template: as long as the request can be created, the event of
    each pass (when there is a template) can be encoded, the event log
    accepts the records and every wait ends with a tick, [Start] is still
    running after any number of passes, with one sent record for each. *)
Theorem unbounded_run (c : Config) (ctx : ctx_encoding) (req : Request)
    (w : World) :
  MaxMessages c = 0%Z →
  (init (mkGenerator c None 0) []).2 = None →
  probing (mkGenerator c None 0) w = PollOk →
  encoding_of (EventEncoding c) = Some ctx →
  (0 < seconds (Period c))%Z →
  NewRequest (InputMethod c) (Sink c) = inr req →
  (∀ base k it, template c base → iterations w !! k = Some it →
                encodable c base ctx req k it) →
  Forall accepted (iterations w) → Forall ticking (iterations w) →
  (Start (inr c) w).1 = Running
  ∧ length (sent_records (vented (Start (inr c) w).2)) = length (iterations w).
Proof.
  intros Hmax Hinit Hprobe Henc Hperiod Hreq Hwrite Hacc Htick.
  destruct (init (mkGenerator c None 0) []) as [[env h] e] eqn:Hi.
  simpl in Hinit. subst e.
  destruct (init_cases _ _ _ Hi) as [[-> ->]|(base & Ht & -> & ->)].
  - rewrite (Start_steady c w _ _ ctx Hi) by done.
    destruct (loop_no_template_running ctx (iterations w)
                (mkState (mkGenerator c None 0) [] []))
      as (st' & Hloop & Hcount); try done.
    { unfold hasNext. simpl. by rewrite Hmax, decide_True. }
    { by exists req. }
    rewrite Hloop. done.
  - rewrite (Start_steady c w _ _ ctx Hi) by done.
    destruct (loop_unbounded c base 0 ctx req Hreq Hmax (iterations w)
                (mkState (mkGenerator c (Some 0) 0) [base] []) 0)
      as (st' & Hloop & Hcount); try done.
    { intros j it Hit. by apply Hwrite. }
    rewrite Hloop. done.
Qed.

(** X6. A negative MaxMessages lets exactly one pass through: after the
    first pass [hasNext] answers false, with or without a template, and
    [Start] returns nil with one sent record (when the request can be
    created, the event of the pass can be encoded and the event log accepts
    the records). *)
Theorem negative_maximum (c : Config) (ctx : ctx_encoding) (req : Request)
    (w : World) (it : iteration) (rest : list iteration) :
  (MaxMessages c < 0)%Z →
  (init (mkGenerator c None 0) []).2 = None →
  probing (mkGenerator c None 0) w = PollOk →
  encoding_of (EventEncoding c) = Some ctx →
  (0 < seconds (Period c))%Z →
  NewRequest (InputMethod c) (Sink c) = inr req →
  iterations w = it :: rest →
  (∀ base, template c base → encodable c base ctx req 0 it) →
  accepted it →
  ∃ st, Start (inr c) w = (Returned None, st)
        ∧ length (sent_records (vented st)) = 1.
Proof.
  intros Hmax Hinit Hprobe Henc Hperiod Hreq Hits Hwrite Hacc.
  destruct (init (mkGenerator c None 0) []) as [[env h] e] eqn:Hi.
  simpl in Hinit. subst e.
  destruct (init_cases _ _ _ Hi) as [[-> ->]|(base & Ht & -> & ->)];
    rewrite (Start_steady c w _ _ ctx Hi), Hits by done.
  - pose proof (next_no_template ctx (now_build it) (mkGenerator c None 0) []
                  req eq_refl Hreq) as Hnext.
    destruct (sending_accepted ctx it (mkState (mkGenerator c None 0) [] [])
                _ _ _ _ Hnext Hacc) as (st1 & Hrun & Hg & _ & Hsent & _).
    simpl. rewrite Hrun, schedule_last; [by eauto|].
    rewrite Hg. rewrite hasNext_below by (simpl; lia).
    apply bool_decide_eq_false. simpl. lia.
  - destruct (sending_encoded c base 0 ctx req Hreq it
                (mkState (mkGenerator c (Some 0) 0) [base] []) 0)
      as (st1 & Hrun & Hint1 & Hseq1 & Hsent & _); try done.
    { by apply Hwrite. }
    assert (cfg (gen st1) = c) as Hc1 by apply Hint1.
    simpl. rewrite Hrun, schedule_last; [by eauto|].
    rewrite hasNext_below by (rewrite Hc1; lia).
    apply bool_decide_eq_false. rewrite Hc1, Hseq1.
    vm_compute (GoInt.wrap (Z.of_nat 1)). lia.
Qed.

(** X7. The event log refusing a record ends the run with that error: a
    refused sent record is the last record of the log, and no response
    record is built; a refused response record is the last record of the
    log.  Later passes are not made. *)
Theorem log_refusal_is_fatal (ctx : ctx_encoding) (it : iteration)
    (rest : list iteration) (st : state) g h req event (err : error) :
  next ctx (now_build it) (gen st) (store st) = (g, h, Ok (req, event)) →
  (vent_sent it = Some err →
   ∃ info,
     loop ctx (it :: rest) st
     = (Returned (Some (CannotForward err)),
        mkState g h (vented st ++ [info]))
     ∧ Kind info = EventSent)
  ∧ (vent_sent it = None → vent_response it = Some err →
     ∀ res, exchange it = inr res →
     ∃ info rinfo h',
       loop ctx (it :: rest) st
       = (Returned (Some (CannotForward err)),
          mkState g h' (vented st ++ [info; rinfo]))
       ∧ Kind info = EventSent ∧ Kind rinfo = EventResponse).
Proof.
  intros Hnext.
  destruct (next_event_valid _ _ _ _ _ _ _ _ Hnext) as [id Hid].
  assert (∀ e, ∃ info, sentInfo g h (now_sent it) event req e = Some info
                       ∧ Kind info = EventSent) as Hsent.
  { intros e. unfold sentInfo. rewrite Hid. simpl. destruct e; eauto. }
  split.
  - intros Hvent.
    destruct (Hsent (match exchange it with inl e => Some e | inr _ => None end))
      as (info & Hinfo & Hk).
    exists info. split; [|done].
    simpl. unfold sending. by rewrite Hnext, Hinfo, Hvent.
  - intros Hvent Hrvent res Hex.
    destruct (Hsent None) as (info & Hinfo & Hk).
    destruct (responseInfo_total g h (now_response it) res event id Hid)
      as (h' & rinfo & Hresp).
    destruct (responseInfo_kind _ _ _ _ _ _ _ Hresp) as [Hrk _].
    exists info, rinfo, h'. split_and!; try done.
    simpl. unfold sending, report_response.
    rewrite Hnext, Hex, Hinfo, Hvent. simpl.
    rewrite Hresp, Hrvent. by rewrite <- app_assoc.
Qed.

(** X8. When the event cannot be encoded, [Start] gets the error of
    [WriteRequest] back from [next] and returns it as it is: the pass leaves
    no record, although the counter has been incremented and the clone has
    been made. *)
Theorem encoding_failure_is_fatal (ctx : ctx_encoding) (it : iteration)
    (rest : list iteration) (st : state) b base req (err : error) :
  baseEvent (gen st) = Some b →
  store st !! b = Some base →
  NewRequest (InputMethod (cfg (gen st))) (Sink (cfg (gen st))) = inr req →
  let g' := set_sequence (GoInt.wrap (sequence (gen st) + 1)) (gen st) in
  WriteRequest ctx (stamped g' (now_build it) base) req = inl err →
  loop ctx (it :: rest) st
  = (Returned (Some (NextFailed err)),
     mkState g' (store st ++ [stamped g' (now_build it) base]) (vented st)).
Proof.
  intros Hb Hbase Hreq g' Hwrite. simpl. unfold sending.
  rewrite (next_template _ _ _ _ _ _ _ Hb Hbase Hreq). simpl.
  fold g'. by rewrite Hwrite.
Qed.

(** X9. When the request cannot be created, [Start] returns the error of
    [NewRequest] as it is and the pass changes nothing: no record, the
    counter and the heap as before. *)
Theorem request_failure_is_fatal (ctx : ctx_encoding) (it : iteration)
    (rest : list iteration) (st : state) (err : error) :
  NewRequest (InputMethod (cfg (gen st))) (Sink (cfg (gen st))) = inl err →
  loop ctx (it :: rest) st = (Returned (Some (NextFailed err)), st).
Proof.
  intros Hreq. simpl. unfold sending.
  rewrite (next_request_error _ _ _ _ _ Hreq). by rewrite state_eta.
Qed.

(** X10. A pass whose records are accepted and whose wait is ended by
    the cancellation of the context ends the run with nil, whatever the
    count says; the passes after it are not made. *)
Theorem cancellation_returns_nil (ctx : ctx_encoding) (it : iteration)
    (rest : list iteration) (st : state) g h req event :
  next ctx (now_build it) (gen st) (store st) = (g, h, Ok (req, event)) →
  accepted it → woken it = Cancelled →
  ∃ st1,
    loop ctx (it :: rest) st = (Returned None, st1)
    ∧ length (sent_records (vented st1)) = S (length (sent_records (vented st))).
Proof.
  intros Hnext Hacc Hw.
  destruct (sending_accepted _ _ _ _ _ _ _ Hnext Hacc)
    as (st1 & Hrun & _ & _ & Hsent & _).
  exists st1. split; [|done]. simpl. rewrite Hrun. unfold schedule.
  rewrite Hw. by destruct (hasNext (gen st1)).
Qed.

(** A pass only adds to the heap and to the log. *)
Lemma sending_grows ctx it st :
  store st `prefix_of` store (state_of (sending ctx it st))
  ∧ vented st `prefix_of` vented (state_of (sending ctx it st))
  ∧ cfg (gen (state_of (sending ctx it st))) = cfg (gen st)
  ∧ baseEvent (gen (state_of (sending ctx it st))) = baseEvent (gen st).
Proof.
  destruct (next ctx (now_build it) (gen st) (store st)) as [[g h] r] eqn:Hnext.
  destruct (next_frame _ _ _ _ _ _ _ Hnext) as (Hc & Hb & Hpre).
  destruct r as [[req event]|err|msg];
    [|unfold sending; by rewrite Hnext..].
  destruct (next_event_valid _ _ _ _ _ _ _ _ Hnext) as [id Hid].
  destruct (sending_shape _ _ _ _ _ _ _ _ Hnext Hid)
    as (info & tail & h' & _ & _ & _ & Hpre' & Hrun & _).
  assert (state_of (sending ctx it st)
          = mkState g h' (vented st ++ info :: tail)) as ->.
  { destruct Hrun as [->|[err ->]]; [by rewrite state_of_schedule|done]. }
  simpl. split_and!; try done; [by etrans|by apply prefix_app_r].
Qed.

(** X11. A run only ever adds to the heap and to the log: what a pass
    finds in the heap (the template, the events that earlier records point
    to) and in the log is still there, unchanged, in every later state, and
    the configuration and the pointer to the template stay as they are. *)
Theorem run_only_appends (ctx : ctx_encoding) (its : list iteration)
    (st : state) :
  store st `prefix_of` store (loop ctx its st).2
  ∧ vented st `prefix_of` vented (loop ctx its st).2
  ∧ cfg (gen (loop ctx its st).2) = cfg (gen st)
  ∧ baseEvent (gen (loop ctx its st).2) = baseEvent (gen st)
  ∧ ∀ l e, store st !! l = Some e → store (loop ctx its st).2 !! l = Some e.
Proof.
  assert (store st `prefix_of` store (loop ctx its st).2
          ∧ vented st `prefix_of` vented (loop ctx its st).2
          ∧ cfg (gen (loop ctx its st).2) = cfg (gen st)
          ∧ baseEvent (gen (loop ctx its st).2) = baseEvent (gen st)) as Hgrow.
  { revert st. induction its as [|it its IH]; intros st; [done|].
    simpl. destruct (sending_grows ctx it st) as (Hs & Hv & Hc & Hb).
    destruct (sending ctx it st) as [st'|s st']; simpl in *; [|done].
    destruct (IH st') as (Hs' & Hv' & Hc' & Hb').
    split_and!; [by etrans|by etrans|congruence|congruence]. }
  destruct Hgrow as (Hs & Hv & Hc & Hb). split_and!; try done.
  intros l e Hl. by eapply prefix_lookup_Some.
Qed.

End Endings.

(** Witness of X5: three passes with MaxMessages = 0, with library calls
    that could not encode a fourth event, and three passes of a sender
    without a template. *)
Lemma unbounded_run_witness :
  ((@Start picky (inr (full_config "http://X" "binary" 0))
           (answered_world [smooth Tick; broken Tick])).1 = Running
   ∧ length (sent_records (vented
       (@Start picky (inr (full_config "http://X" "binary" 0))
               (answered_world [smooth Tick; broken Tick])).2)) = 2)
  ∧ ((@Start sample (inr (body_only_config 0))
             (sample_world [smooth Tick; broken Tick; smooth Tick])).1 = Running
     ∧ length (sent_records (vented
         (@Start sample (inr (body_only_config 0))
                 (sample_world [smooth Tick; broken Tick; smooth Tick])).2)) = 3).
Proof.
  split.
  - apply (@unbounded_run picky (full_config "http://X" "binary" 0)
             WithEncodingBinary (mkRequest "GET" "http://X" ∅ None)
             (answered_world [smooth Tick; broken Tick]));
      try reflexivity.
    + intros base k it [_ Hbase] Hit. injection Hbase as <-.
      destruct k as [|[|k]]; simpl in Hit; [| |done];
        injection Hit as <-; eexists; vm_compute; reflexivity.
    + repeat constructor.
    + repeat constructor.
  - apply (@unbounded_run sample (body_only_config 0)
             WithEncodingStructured (mkRequest "POST" "http://X" ∅ None)
             (sample_world [smooth Tick; broken Tick; smooth Tick]));
      try reflexivity.
    + intros base k it [Hne _]. done.
    + repeat constructor.
    + repeat constructor.
Defined.

(** Witness of X6: the example with MaxMessages = -3, and a sender without
    a template with MaxMessages = -1. *)
Lemma negative_maximum_witness :
  (∃ st, @Start sample (inr (example_config 1 (-3) ""))
                (sample_world [smooth Tick; smooth Tick])
         = (Returned None, st)
         ∧ length (sent_records (vented st)) = 1)
  ∧ (∃ st, @Start sample (inr (body_only_config (-1)))
                  (sample_world [smooth Tick; smooth Tick])
           = (Returned None, st)
           ∧ length (sent_records (vented st)) = 1).
Proof.
  split.
  - apply (@negative_maximum sample (example_config 1 (-3) "")
             WithEncodingBinary (mkRequest "POST" "http://X" ∅ None)
             (sample_world [smooth Tick; smooth Tick])
             (smooth Tick) [smooth Tick]); try reflexivity.
    + intros base _. eexists. reflexivity.
    + split; reflexivity.
  - apply (@negative_maximum sample (body_only_config (-1))
             WithEncodingStructured (mkRequest "POST" "http://X" ∅ None)
             (sample_world [smooth Tick; smooth Tick])
             (smooth Tick) [smooth Tick]); try reflexivity.
    + intros base [Hne _]. done.
    + split; reflexivity.
Defined.

(** Witness of X7: the event log refuses the sent record of the first
    pass, and the response record of the first pass. *)
Lemma log_refusal_is_fatal_witness :
  (∃ g h info,
     @loop sample WithEncodingBinary [rejected; smooth Tick]
           (mkState (mkGenerator (example_config 1 2 "") (Some 0) 0)
                    [sample_base] [])
     = (Returned (Some (CannotForward (mkError "log full"))),
        mkState g h ([] ++ [info]))
     ∧ Kind info = EventSent)
  ∧ (∃ g h info rinfo,
       @loop sample WithEncodingBinary [half_rejected; smooth Tick]
             (mkState (mkGenerator (example_config 1 2 "") (Some 0) 0)
                      [sample_base] [])
       = (Returned (Some (CannotForward (mkError "log full"))),
          mkState g h ([] ++ [info; rinfo]))
       ∧ Kind info = EventSent ∧ Kind rinfo = EventResponse).
Proof.
  split.
  - edestruct (@log_refusal_is_fatal sample WithEncodingBinary rejected
                 [smooth Tick]
                 (mkState (mkGenerator (example_config 1 2 "") (Some 0) 0)
                          [sample_base] []))
      as [Hsent _]; [vm_compute; reflexivity|].
    destruct (Hsent eq_refl) as (info & Hrun & Hk). eauto.
  - edestruct (@log_refusal_is_fatal sample WithEncodingBinary half_rejected
                 [smooth Tick]
                 (mkState (mkGenerator (example_config 1 2 "") (Some 0) 0)
                          [sample_base] []))
      as [_ Hresp]; [vm_compute; reflexivity|].
    destruct (Hresp eq_refl eq_refl (answer 202) eq_refl)
      as (info & rinfo & h' & Hrun & Hk & Hrk).
    eexists _, _, _, _. eauto.
Defined.

(** Witness of X8: with incremental ids, the third event (id "3") cannot
    be encoded. *)
Lemma encoding_failure_is_fatal_witness :
  ∃ g' e,
    @loop picky WithEncodingBinary [smooth Tick; smooth Tick]
          (mkState (mkGenerator (full_config "http://X" "binary" 5) (Some 0) 2)
                   [rich_base] [])
    = (Returned (Some (NextFailed (mkError "cannot encode"))),
       mkState g' ([rich_base] ++ [e]) [])
    ∧ sequence g' = 3%Z ∧ ev_ID e = "3".
Proof.
  eexists _, _. split.
  - eapply (@encoding_failure_is_fatal picky WithEncodingBinary (smooth Tick)
              [smooth Tick]
              (mkState (mkGenerator (full_config "http://X" "binary" 5) (Some 0) 2)
                       [rich_base] []) 0 rich_base); reflexivity.
  - split; reflexivity.
Defined.

(** Witness of X9: a sink address without a scheme, in the loop. *)
Lemma request_failure_is_fatal_witness :
  @loop picky WithEncodingBinary [smooth Tick; smooth Tick]
        (mkState (mkGenerator (full_config "::" "binary" 5) (Some 0) 0)
                 [rich_base] [])
  = (Returned (Some (NextFailed (mkError "missing protocol scheme"))),
     mkState (mkGenerator (full_config "::" "binary" 5) (Some 0) 0)
             [rich_base] []).
Proof.
  apply (@request_failure_is_fatal picky). reflexivity.
Defined.

(** Witness of X10: the example with MaxMessages = 0, cancelled in the
    first wait. *)
Lemma cancellation_returns_nil_witness :
  ∃ st1,
    @loop sample WithEncodingBinary [smooth Cancelled; smooth Tick]
          (mkState (mkGenerator (example_config 1 0 "") (Some 0) 0)
                   [sample_base] [])
    = (Returned None, st1)
    ∧ length (sent_records (vented st1)) = 1.
Proof.
  eapply (@cancellation_returns_nil sample WithEncodingBinary (smooth Cancelled)
            [smooth Tick]
            (mkState (mkGenerator (example_config 1 0 "") (Some 0) 0)
                     [sample_base] [])).
  - vm_compute. reflexivity.
  - split; reflexivity.
  - reflexivity.
Defined.

(** Witness of X11: the template is where it was after two passes. *)
Lemma run_only_appends_witness :
  store (@loop sample WithEncodingBinary [replied Tick; smooth Tick]
               (mkState (mkGenerator (example_config 1 0 "") (Some 0) 0)
                        [sample_base] [])).2 !! 0
  = Some sample_base.
Proof.
  destruct (@run_only_appends sample WithEncodingBinary
              [replied Tick; smooth Tick]
              (mkState (mkGenerator (example_config 1 0 "") (Some 0) 0)
                       [sample_base] []))
    as (_ & _ & _ & _ & Hkeep).
  apply Hkeep. reflexivity.
Defined.

(** ** What the requests and the records carry *)

Section Records.
Context `{Externals}.

Lemma copy_headers (m : Header) :
  map_fold (λ k v (acc : Header), <[k := v]> acc) ∅ m = m.
Proof.
  apply (map_fold_weak_ind (λ r m, r = m)); [done|].
  by intros i x m' r _ ->.
Qed.

Lemma sentInfo_fields g h now event req err info :
  sentInfo g h now event req err = Some info →
  Kind info = EventSent
  ∧ Origin info = SenderName (cfg g)
  ∧ Observer info = SenderName (cfg g)
  ∧ eventId h event = Some (SentId info)
  ∧ Sequence info = GoInt.uint64 (sequence g).
Proof.
  unfold sentInfo. destruct (eventId h event) as [id|]; [|done]. simpl.
  destruct err; intros; simplify_eq; done.
Qed.

Lemma responseInfo_fields g h now res event h' info :
  responseInfo g h now res event = (h', Some info) →
  Kind info = EventResponse
  ∧ Origin info = Sink (cfg g)
  ∧ Observer info = SenderName (cfg g)
  ∧ eventId h event = Some (SentId info)
  ∧ Sequence info = GoInt.uint64 (sequence g).
Proof.
  unfold responseInfo. destruct (eventId h event) as [id|]; [|done].
  repeat case_match; intros; simplify_eq; done.
Qed.

(** X12. The sent record of an exchange that was answered holds the
    pointer to the built event and a copy of the headers of the request as
    [next] returned it.  With a static body the record holds the body of the
    request; without one the record holds no body, whatever the encoder put
    into the request. *)
Theorem sent_record_snapshot (ctx : ctx_encoding) (now now' : Instant)
    (g g' : generator) (h h' : heap) (req : Request) (event : option loc) :
  next ctx now g h = (g', h', Ok (req, event)) →
  ∃ info,
    sentInfo g' h' now' event req None = Some info
    ∧ ei_Event info = event
    ∧ ei_Error info = ""
    ∧ HTTPHeaders info = Some (req_Header req)
    ∧ (InputBody (cfg g) ≠ "" → Body info = req_Body req)
    ∧ (InputBody (cfg g) = "" → Body info = None).
Proof.
  intros Hnext.
  destruct (next_event_valid _ _ _ _ _ _ _ _ Hnext) as [id Hid].
  destruct (next_frame _ _ _ _ _ _ _ Hnext) as (Hc & _ & _).
  unfold sentInfo. rewrite Hid. simpl. eexists. split; [done|]. simpl.
  rewrite copy_headers, Hc. split_and!; try done.
  - intros Hbody. rewrite decide_True by done.
    destruct (next_cases ctx now g h)
      as [(err & _ & Hn)|[(r & _ & _ & Hn)|[(b & _ & _ & Hn)
         |(r & b & base & _ & _ & _ & Hn)]]];
      simpl in Hn; rewrite Hn in Hnext; simplify_eq.
    + by rewrite set_input_body_static.
    + destruct (WriteRequest _ _ _); simplify_eq.
      by rewrite (set_input_body_static (set_sequence _ g)).
  - intros Hbody. rewrite decide_False; [done|]. by intros ?.
Qed.

Lemma Header_Add_prefix key value (hd : Header) k :
  default [] (hd !! k) `prefix_of` default [] (Header_Add key value hd !! k).
Proof.
  unfold Header_Add.
  destruct (decide (CanonicalMIMEHeaderKey key = k)) as [<-|Hne].
  - rewrite lookup_insert_eq. simpl. by apply prefix_app_r.
  - by rewrite lookup_insert_ne.
Qed.

Lemma Header_Add_elem key value (hd : Header) :
  value ∈ default [] (Header_Add key value hd !! CanonicalMIMEHeaderKey key).
Proof.
  unfold Header_Add. rewrite lookup_insert_eq. simpl.
  apply elem_of_app. right. by apply list_elem_of_singleton.
Qed.

Lemma elem_of_prefix {A} (x : A) (l1 l2 : list A) :
  x ∈ l1 → l1 `prefix_of` l2 → x ∈ l2.
Proof. intros Hx [k ->]. apply elem_of_app. by left. Qed.

Lemma add_all_prefix (l : list (string * string)) : ∀ (hd : Header) k,
  default [] (hd !! k)
  `prefix_of`
  default [] (foldl (λ hd kv, Header_Add kv.1 kv.2 hd) hd l !! k).
Proof.
  induction l as [|[key value] l IH]; intros hd k; [done|].
  simpl. etrans; [apply (Header_Add_prefix key value)|apply IH].
Qed.

Lemma add_all_elem (l : list (string * string)) : ∀ (hd : Header) key value,
  (key, value) ∈ l →
  value ∈ default []
    (foldl (λ hd kv, Header_Add kv.1 kv.2 hd) hd l !! CanonicalMIMEHeaderKey key).
Proof.
  induction l as [|[key' value'] l IH]; intros hd key value Hin.
  { by apply elem_of_nil in Hin. }
  apply elem_of_cons in Hin as [Heq|Hin]; simpl.
  - simplify_eq. eapply elem_of_prefix; [apply Header_Add_elem|].
    apply add_all_prefix.
  - by apply IH.
Qed.

(** X13. The static headers are added, never put in place of others:
    under every key the values that the request had stay where they are, at
    the front; every configured header value is among the values of its
    canonical key, in whatever order the map is visited; method, address and
    body of the request are not touched. *)
Theorem static_headers_added (g : generator) (req : Request) :
  let req' := add_input_headers g req in
  req_Method req' = req_Method req
  ∧ req_URL req' = req_URL req
  ∧ req_Body req' = req_Body req
  ∧ (∀ k, default [] (req_Header req !! k)
          `prefix_of` default [] (req_Header req' !! k))
  ∧ (∀ key value,
       InputHeaders (cfg g) !! key = Some value →
       value ∈ default [] (req_Header req' !! CanonicalMIMEHeaderKey key)).
Proof.
  unfold add_input_headers.
  destruct (decide (size (InputHeaders (cfg g)) ≠ 0)) as [Hsize|Hsize]; simpl.
  - split_and!; try done.
    + intros k. apply add_all_prefix.
    + intros key value Hin. apply add_all_elem.
      rewrite range_headers_perm. by apply elem_of_map_to_list.
  - split_and!; try done. intros key value Hin.
    assert (InputHeaders (cfg g) = ∅) as Hempty.
    { apply map_size_empty_iff. lia. }
    rewrite Hempty in Hin. by rewrite lookup_empty in Hin.
Qed.

(** The records of one pass. *)
Lemma sending_log ctx it st g h req event :
  next ctx (now_build it) (gen st) (store st) = (g, h, Ok (req, event)) →
  ∃ info,
    sentInfo g h (now_sent it) event req
             (match exchange it with inl e => Some e | inr _ => None end)
    = Some info
    ∧ (vented (state_of (sending ctx it st)) = vented st ++ [info]
       ∨ ∃ res h' rinfo,
           exchange it = inr res
           ∧ responseInfo g h (now_response it) res event = (h', Some rinfo)
           ∧ vented (state_of (sending ctx it st)) = vented st ++ [info; rinfo]).
Proof.
  intros Hnext.
  destruct (next_event_valid _ _ _ _ _ _ _ _ Hnext) as [id Hid].
  unfold sending, report_response. rewrite Hnext.
  destruct (sentInfo g h (now_sent it) event req _) as [info|] eqn:Hsent.
  2:{ unfold sentInfo in Hsent. rewrite Hid in Hsent. simpl in Hsent.
      by destruct (exchange it). }
  exists info. split; [done|].
  destruct (vent_sent it); [by left|]. simpl.
  destruct (exchange it) as [err|res] eqn:Hex.
  { left. by rewrite state_of_schedule. }
  destruct (responseInfo_total g h (now_response it) res event id Hid)
    as (h' & rinfo & Hresp).
  right. exists res, h', rinfo. rewrite Hresp. split_and!; try done.
  rewrite <- app_assoc. simpl.
  destruct (vent_response it); [done|]. by rewrite state_of_schedule.
Qed.

Lemma correlated_snoc sender sink prev log i tail :
  correlated sender sink prev log →
  Kind i = EventSent → Observer i = sender → Origin i = sender →
  correlated sender sink (Some i) tail →
  correlated sender sink prev (log ++ i :: tail).
Proof.
  intros Hlog Hk Hobs Hor Htail. revert prev Hlog.
  induction log as [|j log IH]; intros prev Hlog; simpl in *.
  - rewrite Hk. done.
  - destruct Hlog as [Hj Hlog]. split; [done|].
    destruct (Kind j).
    + destruct Hlog as [? Hlog]. split; [done|]. by apply IH.
    + destruct Hlog as (? & ? & Hlog). split_and!; try done. by apply IH.
Qed.

Lemma sending_correlated ctx it st :
  correlated (SenderName (cfg (gen st))) (Sink (cfg (gen st))) None (vented st) →
  correlated (SenderName (cfg (gen st))) (Sink (cfg (gen st))) None
             (vented (state_of (sending ctx it st))).
Proof.
  intros Hlog.
  destruct (next ctx (now_build it) (gen st) (store st)) as [[g h] r] eqn:Hnext.
  destruct (next_frame _ _ _ _ _ _ _ Hnext) as (Hc & _ & _).
  destruct r as [[req event]|err|msg];
    [|unfold sending; by rewrite Hnext..].
  destruct (sending_log _ _ _ _ _ _ _ Hnext) as (info & Hsent & Hrecs).
  destruct (sentInfo_fields _ _ _ _ _ _ _ Hsent) as (Hk & Hor & Hobs & Hid & Hseq).
  rewrite Hc in Hor, Hobs.
  destruct Hrecs as [->|(res & h' & rinfo & _ & Hresp & ->)].
  - by apply correlated_snoc.
  - destruct (responseInfo_fields _ _ _ _ _ _ _ Hresp)
      as (Hrk & Hror & Hrobs & Hrid & Hrseq).
    rewrite Hc in Hror, Hrobs.
    apply correlated_snoc; try done. simpl. rewrite Hrk.
    split_and!; try done. exists info. split_and!; congruence.
Qed.

(** X14. In the log of every run each record names the sender as its
    observer; a sent record names the sender as its origin; a response
    record names the sink as its origin, directly follows a sent record and
    repeats the sequence number and the sent identifier of that record. *)
Theorem records_are_correlated (c : Config) (w : World) :
  correlated (SenderName c) (Sink c) None (vented (Start (inr c) w).2).
Proof.
  assert (∀ ctx its st, cfg (gen st) = c →
            correlated (SenderName c) (Sink c) None (vented st) →
            correlated (SenderName c) (Sink c) None (vented (loop ctx its st).2))
    as Hloop.
  { intros ctx its. induction its as [|it its IH]; intros st Hc Hlog; [done|].
    simpl. pose proof (sending_correlated ctx it st) as Hstep.
    destruct (sending_grows ctx it st) as (_ & _ & Hc' & _).
    rewrite Hc in Hstep, Hc'. specialize (Hstep Hlog).
    destruct (sending ctx it st) as [st'|s st']; simpl in *; [|done].
    by apply IH. }
  unfold Start, steady.
  destruct (init (mkGenerator c None 0) []) as [[env h] e] eqn:Hinit.
  pose proof (init_cfg _ _ _ _ _ Hinit) as Hc. simpl in Hc.
  repeat case_match; simpl; try done. by apply Hloop.
Qed.

End Records.

(** Witness of X12: the first request of the sender with every override. *)
Lemma sent_record_snapshot_witness :
  ∃ g' h' req event info,
    @next picky WithEncodingBinary 10%Z
          (mkGenerator (full_config "http://X" "binary" 5) (Some 0) 0) [rich_base]
    = (g', h', Ok (req, event))
    ∧ sentInfo g' h' 11%Z event req None = Some info
    ∧ HTTPHeaders info = Some (req_Header req)
    ∧ Body info = req_Body req.
Proof.
  assert (∃ g' h' req event,
            @next picky WithEncodingBinary 10%Z
                  (mkGenerator (full_config "http://X" "binary" 5) (Some 0) 0)
                  [rich_base]
            = (g', h', Ok (req, event))) as (g' & h' & req & event & Hnext).
  { eexists _, _, _, _. vm_compute. reflexivity. }
  destruct (@sent_record_snapshot picky WithEncodingBinary 10%Z 11%Z
              _ _ _ _ _ _ Hnext)
    as (info & Hsent & _ & _ & Hhd & Hbody & _).
  exists g', h', req, event, info. split_and!; try done.
  by apply Hbody.
Defined.

(** Witness of X13: the header "x-a" is there after the headers of the
    encoder. *)
Lemma static_headers_added_witness :
  "1" ∈ default []
    (req_Header
       (@add_input_headers picky
          (mkGenerator (full_config "http://X" "binary" 5) (Some 0) 0)
          (mkRequest "GET" "http://X" {["x-a" := ["0"]]} None)) !! "x-a")
  ∧ ["0"] `prefix_of` default []
    (req_Header
       (@add_input_headers picky
          (mkGenerator (full_config "http://X" "binary" 5) (Some 0) 0)
          (mkRequest "GET" "http://X" {["x-a" := ["0"]]} None)) !! "x-a").
Proof.
  destruct (@static_headers_added picky
              (mkGenerator (full_config "http://X" "binary" 5) (Some 0) 0)
              (mkRequest "GET" "http://X" {["x-a" := ["0"]]} None))
    as (_ & _ & _ & Hpre & Hin).
  split.
  - apply (Hin "x-a" "1"). reflexivity.
  - apply (Hpre "x-a").
Defined.

(** ** The built events and the count, in every run with a template *)

Section Built.
Context `{Externals} (c : Config) (base : Event).

Lemma built_data k now : ev_Data (built c base k now) = ev_Data base.
Proof.
  unfold built, stamped. simpl.
  by destruct (AddSequence c), (IncrementalId c), (OverrideTime c).
Qed.

Lemma built_other_extensions k now name :
  name ≠ "sequence" →
  ev_Extensions (built c base k now) !! name = ev_Extensions base !! name.
Proof.
  intros Hne. unfold built, stamped. simpl.
  destruct (AddSequence c), (IncrementalId c), (OverrideTime c); simpl;
    by rewrite ?lookup_insert_ne.
Qed.

Lemma built_extensions_unchanged k now :
  AddSequence c = false →
  ev_Extensions (built c base k now) = ev_Extensions base.
Proof.
  intros Ha. unfold built, stamped. simpl. rewrite Ha.
  by destruct (IncrementalId c), (OverrideTime c).
Qed.

Lemma built_time_unchanged k now :
  OverrideTime c = false → ev_Time (built c base k now) = ev_Time base.
Proof.
  intros Ho. unfold built, stamped. simpl. rewrite Ho.
  by destruct (AddSequence c), (IncrementalId c).
Qed.

(** X15. In every run with a template, the sent identifier of the
    [k]-th sent record is the decimal numeral of [k] when IncrementalId is
    set, and the id of the template when it is not (for a number of sent
    records that is a value of [int]). *)
Theorem sent_identifiers (w : World) :
  template c base →
  let sent := sent_records (vented (Start (inr c) w).2) in
  (Z.of_nat (length sent) ≤ GoInt.max_int)%Z →
  ∀ k i, sent !! k = Some i →
         SentId i = if IncrementalId c then Itoa (Z.of_nat (S k)) else ID base.
Proof.
  intros Ht sent Hbound k i Hk.
  destruct (Start_consistent c base w Ht) as (_ & n & Hcons).
  destruct (consistent_events _ _ _ _ _ Hcons k i Hk) as (now & Hid & _).
  rewrite Hid. destruct (IncrementalId c) eqn:Hinc.
  - rewrite built_id_incremental by done. f_equal.
    apply wrap_small. apply lookup_lt_Some in Hk. fold sent in Hk.
    unfold GoInt.is_int, GoInt.min_int, GoInt.max_int in *. lia.
  - by apply built_id_unchanged.
Qed.

(** X16. In every run with a template, the event that a sent record
    points to has the type and the data of the template and its extensions
    other than [sequence]; it also has the time of the template unless
    OverrideTime is set, and all its extensions unless AddSequence is
    set. *)
Theorem overrides_touch_nothing_else (w : World) :
  template c base →
  ∀ i l e,
    i ∈ sent_records (vented (Start (inr c) w).2) →
    ei_Event i = Some l →
    store (Start (inr c) w).2 !! l = Some e →
    ev_Type e = ev_Type base
    ∧ ev_Data e = ev_Data base
    ∧ (∀ name, name ≠ "sequence" →
               ev_Extensions e !! name = ev_Extensions base !! name)
    ∧ (OverrideTime c = false → ev_Time e = ev_Time base)
    ∧ (AddSequence c = false → ev_Extensions e = ev_Extensions base).
Proof.
  intros Ht i l e Hi Hl He.
  destruct (Start_consistent c base w Ht) as (_ & n & Hcons).
  apply list_elem_of_lookup in Hi as [k Hk].
  destruct (consistent_events _ _ _ _ _ Hcons k i Hk) as (now & _ & Hev).
  rewrite (Hev l Hl) in He. simplify_eq.
  split_and!.
  - apply built_type.
  - apply built_data.
  - intros name Hne. by apply built_other_extensions.
  - apply built_time_unchanged.
  - apply built_extensions_unchanged.
Qed.

Lemma sending_bounded ctx it st b :
  intact c b base st →
  (0 < MaxMessages c ≤ GoInt.max_int)%Z →
  Z.of_nat (length (sent_records (vented st))) = sequence (gen st) →
  (sequence (gen st) < MaxMessages c)%Z →
  match sending ctx it st with
  | Continue st' =>
    intact c b base st'
    ∧ Z.of_nat (length (sent_records (vented st'))) = sequence (gen st')
    ∧ (sequence (gen st') < MaxMessages c)%Z
  | Stop _ st' =>
    (Z.of_nat (length (sent_records (vented st'))) ≤ MaxMessages c)%Z
  end.
Proof.
  intros (Hc & Hb & Hbase) Hmax Hcount Hlt.
  destruct (next_cases ctx (now_build it) (gen st) (store st))
    as [(err & _ & Hn)|[(r & _ & Hnone & _)|[(b' & Hb' & Hnone & _)
       |(req & b' & base' & _ & Hb' & Hbase' & Hn)]]];
    [|congruence|congruence|].
  { unfold sending. rewrite Hn. simpl. rewrite Hcount. lia. }
  assert (b' = b) as -> by congruence.
  assert (base' = base) as -> by congruence.
  simpl in Hn.
  set (g' := set_sequence (GoInt.wrap (sequence (gen st) + 1)) (gen st)) in *.
  set (e := stamped g' (now_build it) base) in *.
  assert (sequence g' = sequence (gen st) + 1)%Z as Hseq'.
  { simpl. apply succ_small. lia. }
  destruct (WriteRequest ctx e req) as [err|req'] eqn:Hwrite.
  { unfold sending. rewrite Hn. simpl. rewrite Hcount. lia. }
  assert (eventId (store st ++ [e]) (Some (length (store st))) = Some (ID e))
    as Hid by (apply eventId_valid; by apply list_lookup_middle).
  destruct (sending_shape _ _ _ _ _ _ _ _ Hn Hid)
    as (info & tail & h' & (Hk & _) & Htail & _ & Hpre & Hrun & _).
  assert (Forall (λ r, Kind r = EventResponse) tail) as Htail'.
  { eapply Forall_impl; [done|]. by intros ? [? _]. }
  assert (Z.of_nat (length (sent_records (vented st ++ info :: tail)))
          = sequence g') as Hcount'.
  { rewrite Hseq', <- Hcount, sent_records_snoc, length_app by done.
    simpl length. lia. }
  unfold schedule in Hrun.
  destruct Hrun as [Hrun|[err Hrun]]; rewrite Hrun; cbn [vented gen];
    [|rewrite Hcount'; lia].
  assert (cfg g' = c) as Hcg by done.
  rewrite hasNext_below by (rewrite Hcg; lia).
  case_bool_decide as Hnext; rewrite Hcg in Hnext;
    [|cbn [vented]; rewrite Hcount'; lia].
  destruct (woken it); [|cbn [vented]; rewrite Hcount'; lia].
  split_and!; try done. unfold intact. split_and!; try done. cbn [store].
  eapply prefix_lookup_Some; [|done]. by apply lookup_app_l_Some.
Qed.

(** X17. In every run with a template and MaxMessages = K > 0 the log
    holds at most K sent records, however the run goes on or ends. *)
Theorem never_more_than_maximum (w : World) :
  template c base →
  (0 < MaxMessages c ≤ GoInt.max_int)%Z →
  (Z.of_nat (length (sent_records (vented (Start (inr c) w).2)))
   ≤ MaxMessages c)%Z.
Proof.
  intros Ht Hmax.
  assert (∀ ctx its st,
            intact c 0 base st →
            Z.of_nat (length (sent_records (vented st))) = sequence (gen st) →
            (sequence (gen st) < MaxMessages c)%Z →
            (Z.of_nat (length (sent_records (vented (loop ctx its st).2)))
             ≤ MaxMessages c)%Z) as Hloop.
  { intros ctx its. induction its as [|it its IH]; intros st Hint Hcount Hlt.
    { simpl. lia. }
    simpl. pose proof (sending_bounded ctx it st 0 Hint Hmax Hcount Hlt) as Hstep.
    destruct (sending ctx it st) as [st'|s st']; simpl; [|done].
    destruct Hstep as (? & ? & ?). by apply IH. }
  unfold Start, steady. rewrite (init_template c base Ht).
  repeat case_match; simpl; try lia.
  apply Hloop; simpl; try done; lia.
Qed.

End Built.

(** Witness of X15: incremental ids in two passes. *)
Lemma sent_identifiers_witness :
  SentId <$> sent_records
    (vented (@Start picky (inr (full_config "http://X" "structured" 5))
                    (answered_world [smooth Tick; broken Cancelled])).2)
  = ["1"; "2"].
Proof.
  pose proof (@sent_identifiers picky (full_config "http://X" "structured" 5)
                rich_base (answered_world [smooth Tick; broken Cancelled])
                ltac:(split; done)) as Hids.
  cbv zeta in Hids.
  set (sent := sent_records _) in *.
  assert (length sent = 2) as Hlen by (vm_compute; reflexivity).
  clearbody sent.
  specialize (Hids ltac:(rewrite Hlen; vm_compute; congruence)).
  destruct sent as [|s1 [|s2 [|s3 l]]]; try discriminate Hlen.
  simpl. by rewrite (Hids 0 s1 eq_refl), (Hids 1 s2 eq_refl).
Defined.

(** Witness of X16: the extension "color" of the template is on the first
    built event. *)
Lemma overrides_touch_nothing_else_witness :
  ∃ e, store (@Start picky (inr (full_config "http://X" "binary" 5))
                     (answered_world [smooth Cancelled])).2 !! 1 = Some e
       ∧ ev_Type e = "t"
       ∧ ev_Extensions e !! "color" = Some (ExtString "red").
Proof.
  eexists. split; [vm_compute; reflexivity|].
  edestruct (@overrides_touch_nothing_else picky
               (full_config "http://X" "binary" 5) rich_base
               (answered_world [smooth Cancelled]) ltac:(split; done)
               (mkEventInfo EventSent "" (Some 1)
                  (Some {["Ce-Id" := ["1"]; "Ce-Type" := ["t"];
                          "x-a" := ["1"]; "x-b" := ["2"]]})
                  (Some (String.list_byte_of_string "ping")) 0
                  "sender" "sender" 11%Z 1%Z "1") 1)
    as (Hty & _ & Hext & _).
  - vm_compute. left.
  - reflexivity.
  - vm_compute. reflexivity.
  - split; [exact Hty|]. by apply (Hext "color").
Defined.

(** Witness of X17: three accepted passes with MaxMessages = 2. *)
Lemma never_more_than_maximum_witness :
  (Z.of_nat (length (sent_records
     (vented (@Start sample (inr (example_config 1 2 ""))
                     (sample_world [broken Tick; smooth Tick; smooth Tick])).2)))
   ≤ 2)%Z.
Proof.
  apply (@never_more_than_maximum sample (example_config 1 2 "") sample_base).
  - split; done.
  - vm_compute. split; congruence.
Defined.

(** ** An input event that is null, and the count of the responses *)

Section Edges.
Context `{Externals}.

(** X18. An input event that unmarshals to nil passes [init] even when
    no static body and no static headers are configured; the sender then has
    no template, and every request that [next] builds is the bare request
    that [NewRequest] made: no event, no headers, no body, the counter where
    it was. *)
Theorem null_event_sends_bare_requests (c : Config) :
  InputEvent c ≠ "" →
  Unmarshal (InputEvent c) = inr None →
  InputBody c = "" → size (InputHeaders c) = 0 →
  init (mkGenerator c None 0) [] = (mkGenerator c None 0, [], None)
  ∧ ∀ ctx now h req,
      NewRequest (InputMethod c) (Sink c) = inr req →
      next ctx now (mkGenerator c None 0) h
      = (mkGenerator c None 0, h, Ok (req, None))
      ∧ req_Header req = ∅ ∧ req_Body req = None.
Proof.
  intros Hne Hparse Hbody Hsize. split.
  - unfold init. simpl. rewrite decide_True, Hparse by done. simpl.
    rewrite decide_False; [done|]. by intros [? _].
  - intros ctx now h req Hreq.
    rewrite (next_no_template ctx now (mkGenerator c None 0) h req eq_refl Hreq).
    unfold set_input_body, add_input_headers. simpl.
    rewrite (decide_False (P := size (InputHeaders c) ≠ 0)) by lia.
    rewrite (decide_False (P := InputBody c ≠ "")) by (by intros ?).
    split; [done|].
    unfold NewRequest in Hreq. destruct (NewRequest_error _ _); by simplify_eq.
Qed.

Lemma ordered_counts a log :
  ordered a log = true →
  length (response_records log)
  ≤ length (sent_records log) + (if a then 1 else 0).
Proof.
  revert a. induction log as [|i log IH]; intros a Hord; simpl in *; [lia|].
  unfold response_records, sent_records in *.
  destruct (Kind i) eqn:Hk.
  - rewrite filter_cons_False, filter_cons_True by (by rewrite ?Hk).
    specialize (IH true Hord). simpl in *. lia.
  - apply andb_true_iff in Hord as [-> Hord].
    rewrite filter_cons_True, filter_cons_False by (by rewrite ?Hk).
    specialize (IH false Hord). simpl in *. lia.
Qed.

(** X19. In the log of every run there are at most as many response
    records as sent records. *)
Theorem responses_never_outnumber (environ : error + Config) (w : World) :
  length (response_records (vented (Start environ w).2))
  ≤ length (sent_records (vented (Start environ w).2)).
Proof.
  pose proof (ordered_counts false _ (Start_ordered environ w)) as Hcount.
  change (if false then 1 else 0) with 0 in Hcount.
  by rewrite Nat.add_0_r in Hcount.
Qed.

End Edges.

(** Witness of X18: a sender whose only input is the event "null". *)
Lemma null_event_sends_bare_requests_witness :
  @init sample (mkGenerator
                  (mkConfig "sender" "http://X" 0%Z false 60%Z "null" "binary"
                            ∅ "" "POST" false false false false 1%Z 1%Z)
                  None 0) []
  = (mkGenerator
       (mkConfig "sender" "http://X" 0%Z false 60%Z "null" "binary"
                 ∅ "" "POST" false false false false 1%Z 1%Z) None 0, [], None)
  ∧ @next sample WithEncodingBinary 10%Z
          (mkGenerator
             (mkConfig "sender" "http://X" 0%Z false 60%Z "null" "binary"
                       ∅ "" "POST" false false false false 1%Z 1%Z) None 0) []
    = (mkGenerator
         (mkConfig "sender" "http://X" 0%Z false 60%Z "null" "binary"
                   ∅ "" "POST" false false false false 1%Z 1%Z) None 0, [],
       Ok (mkRequest "POST" "http://X" ∅ None, None)).
Proof.
  destruct (@null_event_sends_bare_requests sample
              (mkConfig "sender" "http://X" 0%Z false 60%Z "null" "binary"
                        ∅ "" "POST" false false false false 1%Z 1%Z))
    as [Hinit Hnext]; [done|reflexivity|reflexivity|reflexivity|].
  split; [exact Hinit|].
  by destruct (Hnext WithEncodingBinary 10%Z []
                 (mkRequest "POST" "http://X" ∅ None) eq_refl) as [Hn _].
Defined.
